(** * Semi-tensor product demo: the arithmetic core of [app.py]

    The development embeds the three mathematical functions of the
    Streamlit application ([get_lcm], [stp_product_stepwise],
    [stp_addition_stepwise]) and the inline matrix addition of "Mode B",
    together with the slice of NumPy they call ([np.eye], [np.ones],
    [np.kron], [np.dot], array [+]).

    - Python integers (shapes, LCM, expansion factors) are unbounded: [Z].
    - Array entries are [dtype=int] on the platforms the demo targets,
      that is 64-bit two's complement: a [Z] inside the int64 range, every
      arithmetic result wrapped by [wrap64].
    - Python exceptions are values of [exn]; a computation that may raise
      lives in the [result] monad. *)

From Stdlib Require Import ZArith List Bool Lia Znumtheory.
Import ListNotations.
Local Open Scope Z_scope.

(** ** Exceptions *)

Inductive exn : Type :=
| ZeroDivisionError
| ValueError.

Inductive result (A : Type) : Type :=
| Ok (a : A)
| Raise (e : exn).
Arguments Ok {A} a.
Arguments Raise {A} e.

Definition bind {A B : Type} (c : result A) (k : A -> result B) : result B :=
  match c with
  | Ok a => k a
  | Raise e => Raise e
  end.

Notation "x <- c ;; k" := (bind c (fun x => k))
  (at level 61, c at next level, right associativity).

Definition raises {A : Type} (c : result A) : Prop :=
  exists e, c = Raise e.

(** ** Python integer operators *)

(** [a // b] on Python integers: floor division, [ZeroDivisionError] on a zero
    divisor. *)
Definition floordiv (a b : Z) : result Z :=
  if b =? 0 then Raise ZeroDivisionError else Ok (a / b).

(** [math.gcd]: the non-negative greatest common divisor. *)
Definition math_gcd (a b : Z) : Z := Z.gcd a b.

(** ** [get_lcm] (app.py, lines 37-40) *)

Definition get_lcm (a b : Z) : result Z :=
  if (a =? 0) || (b =? 0) then Ok 0
  else floordiv (Z.abs (a * b)) (math_gcd a b).

(** The reconciliation lines that follow every call of [get_lcm] in the
    source ([L = get_lcm(n, p); alpha = L // n; beta = L // p], lines 47-49,
    70-72 and 295-316). *)
Definition reconcile (d1 d2 : Z) : result (Z * Z * Z) :=
  L <- get_lcm d1 d2 ;;
  alpha <- floordiv L d1 ;;
  beta <- floordiv L d2 ;;
  Ok (L, alpha, beta).

(** ** 64-bit array entries *)

Definition int64_min : Z := - 2 ^ 63.
Definition int64_max : Z := 2 ^ 63 - 1.

Definition in_int64 (z : Z) : bool := (int64_min <=? z) && (z <=? int64_max).

(** Two's complement wrap-around of an exact integer result. *)
Definition wrap64 (z : Z) : Z := (z + 2 ^ 63) mod 2 ^ 64 - 2 ^ 63.

Definition add64 (a b : Z) : Z := wrap64 (a + b).
Definition mul64 (a b : Z) : Z := wrap64 (a * b).

(** ** Two-dimensional arrays *)

(** A 2-D [numpy.ndarray] of integers: its [shape] and its rows. *)
Record ndarray : Type := mk_ndarray {
  nrows : nat;
  ncols : nat;
  data : list (list Z)
}.

Definition shape (A : ndarray) : nat * nat := (nrows A, ncols A).

(** [A[i, j]]. *)
Definition entry (A : ndarray) (i j : nat) : Z := nth j (nth i (data A) []) 0.

Definition wf_row (c : nat) (r : list Z) : bool :=
  (length r =? c)%nat && forallb in_int64 r.

(** The rows agree with the shape and every entry is an int64. *)
Definition wf_ndarray (A : ndarray) : bool :=
  (length (data A) =? nrows A)%nat && forallb (wf_row (ncols A)) (data A).

(** The identity matrix of order [k]. *)
Definition eye_array (k : nat) : ndarray :=
  mk_ndarray k k
    (map (fun i => map (fun j => if (i =? j)%nat then 1 else 0) (seq 0 k))
         (seq 0 k)).

(** [np.eye(n, dtype=int)]; a negative order is a [ValueError]. *)
Definition np_eye (n : Z) : result ndarray :=
  if n <? 0 then Raise ValueError else Ok (eye_array (Z.to_nat n)).

(** The [r]-by-[c] array of ones. *)
Definition ones_array (r c : nat) : ndarray :=
  mk_ndarray r c (repeat (repeat 1 c) r).

(** [np.ones((r, c), dtype=int)]; a negative dimension is a [ValueError]. *)
Definition np_ones (r c : Z) : result ndarray :=
  if (r <? 0) || (c <? 0) then Raise ValueError
  else Ok (ones_array (Z.to_nat r) (Z.to_nat c)).

(** [np.kron(A, B)] on 2-D arrays: entry [(i*rB + k, j*cB + l)] is
    [A[i,j] * B[k,l]]. *)
Definition np_kron (A B : ndarray) : ndarray :=
  mk_ndarray (nrows A * nrows B) (ncols A * ncols B)
    (flat_map
       (fun ra => map (fun rb => flat_map (fun a => map (mul64 a) rb) ra) (data B))
       (data A)).

Definition column (j : nat) (B : ndarray) : list Z :=
  map (fun r => nth j r 0) (data B).

(** Inner product accumulated in int64. *)
Definition dot64 (u v : list Z) : Z :=
  fold_left (fun acc ab => add64 acc (mul64 (fst ab) (snd ab))) (combine u v) 0.

(** The product of two arrays whose inner dimensions agree. *)
Definition dot_array (A B : ndarray) : ndarray :=
  mk_ndarray (nrows A) (ncols B)
    (map (fun ra => map (fun j => dot64 ra (column j B)) (seq 0 (ncols B)))
         (data A)).

(** [np.dot(A, B)] on 2-D arrays; mismatched inner dimensions are a
    [ValueError]. *)
Definition np_dot (A B : ndarray) : result ndarray :=
  if (ncols A =? nrows B)%nat then Ok (dot_array A B) else Raise ValueError.

(** NumPy broadcasting of one axis pair: equal lengths, or one of them 1. *)
Definition bcast_dim (a b : nat) : option nat :=
  if (a =? b)%nat then Some a
  else if (a =? 1)%nat then Some b
  else if (b =? 1)%nat then Some a
  else None.

(** Stretch an axis of length [n] to length [k] (only a length-1 axis is
    ever stretched). *)
Definition broadcast_axis {T : Type} (n k : nat) (l : list T) : list T :=
  if (n =? k)%nat then l else flat_map (fun x => repeat x k) l.

Definition broadcast_to (r c : nat) (A : ndarray) : list (list Z) :=
  broadcast_axis (nrows A) r (map (broadcast_axis (ncols A) c) (data A)).

Definition map2 {T U V : Type} (f : T -> U -> V) (l1 : list T) (l2 : list U)
  : list V :=
  map (fun ab => f (fst ab) (snd ab)) (combine l1 l2).

(** Elementwise int64 sum of two arrays broadcast to shape [(r, c)]. *)
Definition add_array (r c : nat) (A B : ndarray) : ndarray :=
  mk_ndarray r c (map2 (map2 add64) (broadcast_to r c A) (broadcast_to r c B)).

(** [A + B] on arrays, with broadcasting; incompatible shapes are a
    [ValueError]. *)
Definition np_add (A B : ndarray) : result ndarray :=
  match bcast_dim (nrows A) (nrows B), bcast_dim (ncols A) (ncols B) with
  | Some r, Some c => Ok (add_array r c A B)
  | _, _ => Raise ValueError
  end.

(** ** [stp_product_stepwise] (app.py, lines 43-63) *)

Module Product.
(** The dictionary returned by [stp_product_stepwise]. *)
Record steps : Type := mk_steps {
  LCM : Z;
  alpha : Z;
  beta : Z;
  A_kron : ndarray;
  B_kron : ndarray;
  Result : ndarray
}.
End Product.

Definition stp_product_stepwise (A B : ndarray) : result Product.steps :=
  let '(m, n) := shape A in
  let '(p, q) := shape B in
  L <- get_lcm (Z.of_nat n) (Z.of_nat p) ;;
  alpha <- floordiv L (Z.of_nat n) ;;
  beta <- floordiv L (Z.of_nat p) ;;
  id_alpha <- np_eye alpha ;;
  id_beta <- np_eye beta ;;
  let A_kron := np_kron A id_alpha in
  let B_kron := np_kron B id_beta in
  Result <- np_dot A_kron B_kron ;;
  Ok (Product.mk_steps L alpha beta A_kron B_kron Result).

(** ** [stp_addition_stepwise] (app.py, lines 66-87) *)

Module Addition.
(** The dictionary returned by [stp_addition_stepwise]. *)
Record steps : Type := mk_steps {
  LCM : Z;
  alpha : Z;
  beta : Z;
  V1_kron : ndarray;
  V2_kron : ndarray;
  Result : ndarray
}.
End Addition.

Definition stp_addition_stepwise (V1 V2 : ndarray) : result Addition.steps :=
  let m := Z.of_nat (nrows V1) in
  let p := Z.of_nat (nrows V2) in
  L <- get_lcm m p ;;
  alpha <- floordiv L m ;;
  beta <- floordiv L p ;;
  ones_alpha <- np_ones alpha 1 ;;
  ones_beta <- np_ones beta 1 ;;
  let V1_kron := np_kron V1 ones_alpha in
  let V2_kron := np_kron V2 ones_beta in
  Result <- np_add V1_kron V2_kron ;;
  Ok (Addition.mk_steps L alpha beta V1_kron V2_kron Result).

(** ** Matrix addition of Mode B (app.py, lines 295-296 and 315-325) *)

Module MatrixAddition.
(** The values the page computes for the matrix addition. *)
Record steps : Type := mk_steps {
  lcm_row : Z;
  lcm_col : Z;
  alpha_r : Z;
  alpha_c : Z;
  beta_r : Z;
  beta_c : Z;
  A_exp : ndarray;
  B_exp : ndarray;
  Res_add : ndarray
}.
End MatrixAddition.

(** [ma], [na], [mb], [nb] are the four dimension inputs of the page; the
    session state keeps [A] and [B] of these shapes. *)
Definition matrix_addition (ma na mb nb : Z) (A B : ndarray)
  : result MatrixAddition.steps :=
  lcm_row <- get_lcm ma mb ;;
  lcm_col <- get_lcm na nb ;;
  alpha_r <- floordiv lcm_row ma ;;
  alpha_c <- floordiv lcm_col na ;;
  beta_r <- floordiv lcm_row mb ;;
  beta_c <- floordiv lcm_col nb ;;
  J_A <- np_ones alpha_r alpha_c ;;
  J_B <- np_ones beta_r beta_c ;;
  let A_exp := np_kron A J_A in
  let B_exp := np_kron B J_B in
  Res_add <- np_add A_exp B_exp ;;
  Ok (MatrixAddition.mk_steps lcm_row lcm_col alpha_r alpha_c beta_r beta_c
        A_exp B_exp Res_add).

(** ** The operations in the words of the specification *)

(** Entry [(i, j)] of the standard matrix product over the integers:
    the sum over [k < cols(A)] of [A[i,k] * B[k,j]]. *)
Definition standard_product_entry (A B : ndarray) (i j : nat) : Z :=
  fold_right (fun k acc => entry A i k * entry B k j + acc) 0
             (seq 0 (ncols A)).

(** The exact inner product of two integer lists. *)
Definition dot_exact (u v : list Z) : Z :=
  fold_right (fun ab acc => fst ab * snd ab + acc) 0 (combine u v).

(** ** The page script (app.py, lines 126-164, 282-325 and 379-398)

    Each interaction reruns the script against [st.session_state]. The
    widgets hand the script their current values: four matrix dimensions
    (number inputs, 1 to 5), two vector lengths (sliders, 2 to 20) and
    whether the button of the mode was just pressed. [np.random.randint]
    draws from a generator state that is threaded through the run. *)

Module Session.
(** The attributes of [st.session_state] the script reads and writes; an
    attribute that was never set is [None]. *)
Record state : Type := mk_state {
  A : option ndarray;
  B : option ndarray;
  dims : option (nat * nat * nat * nat);
  A_add : option ndarray;
  B_add : option ndarray;
  dims_add : option (nat * nat * nat * nat);
  v_face : option ndarray;
  v_finger : option ndarray
}.

(** The session state of a fresh browser session. *)
Definition empty : state := mk_state None None None None None None None None.
End Session.

(** What a run of one mode of the page ends in: the values it goes on to
    render, an [AttributeError] from reading an attribute of the session
    state that is not there, or an exception escaping one of the stepwise
    functions. *)
Inductive page_result (T : Type) : Type :=
| Shown (t : T)
| AttributeError
| Failed (e : exn).
Arguments Shown {T} t.
Arguments AttributeError {T}.
Arguments Failed {T} e.

(** Equality of two dimension tuples. *)
Definition dims_eqb (d e : nat * nat * nat * nat) : bool :=
  let '(d1, d2, d3, d4) := d in
  let '(e1, e2, e3, e4) := e in
  ((d1 =? e1) && (d2 =? e2) && (d3 =? e3) && (d4 =? e4))%nat.

Section PageModel.

Variable rng : Type.

(** [np.random.randint(low, high, (r, c))]: the array drawn and the next
    generator state. *)
Variable randint : Z -> Z -> nat -> nat -> rng -> ndarray * rng.

(** Mode A, lines 152-155 and 159-161: draw both operands and record the
    dimensions they were drawn for. *)
Definition generate_product_operands (m n p q : nat) (s : Session.state)
           (g : rng) : Session.state * rng :=
  let (A, g1) := randint 1 5 m n g in
  let (B, g2) := randint 1 5 p q g1 in
  (Session.mk_state (Some A) (Some B) (Some (m, n, p, q))
                    (Session.A_add s) (Session.B_add s) (Session.dims_add s)
                    (Session.v_face s) (Session.v_finger s),
   g2).

(** Mode A, line 158: the stored operands are missing or were drawn for
    other dimensions. *)
Definition product_operands_stale (m n p q : nat) (s : Session.state) : bool :=
  match Session.A s with
  | None => true
  | Some _ =>
      match Session.dims s with
      | None => true
      | Some d => negb (dims_eqb d (m, n, p, q))
      end
  end.

(** Mode A, lines 151-164. *)
Definition mode_a_page (m n p q : nat) (button : bool) (s : Session.state)
           (g : rng) : page_result (Session.state * rng * Product.steps) :=
  let (s1, g1) :=
    if button then generate_product_operands m n p q s g else (s, g) in
  let (s2, g2) :=
    if product_operands_stale m n p q s1
    then generate_product_operands m n p q s1 g1 else (s1, g1) in
  match Session.A s2, Session.B s2 with
  | Some A, Some B =>
      match stp_product_stepwise A B with
      | Ok res => Shown (s2, g2, res)
      | Raise e => Failed e
      end
  | _, _ => AttributeError
  end.

(** Mode B, matrix addition, lines 301-303 and 308-310. *)
Definition generate_addition_operands (ma na mb nb : nat) (s : Session.state)
           (g : rng) : Session.state * rng :=
  let (A, g1) := randint 1 10 ma na g in
  let (B, g2) := randint 1 10 mb nb g1 in
  (Session.mk_state (Session.A s) (Session.B s) (Session.dims s)
                    (Some A) (Some B) (Some (ma, na, mb, nb))
                    (Session.v_face s) (Session.v_finger s),
   g2).

(** Mode B, matrix addition, lines 306-307. *)
Definition addition_operands_stale (ma na mb nb : nat) (s : Session.state)
  : bool :=
  match Session.A_add s with
  | None => true
  | Some _ =>
      match Session.dims_add s with
      | None => true
      | Some d => negb (dims_eqb d (ma, na, mb, nb))
      end
  end.

(** Mode B, matrix addition, lines 295-325. *)
Definition mode_b_matrix_page (ma na mb nb : nat) (button : bool)
           (s : Session.state) (g : rng)
  : page_result (Session.state * rng * MatrixAddition.steps) :=
  let (s1, g1) :=
    if button then generate_addition_operands ma na mb nb s g else (s, g) in
  let (s2, g2) :=
    if addition_operands_stale ma na mb nb s1
    then generate_addition_operands ma na mb nb s1 g1 else (s1, g1) in
  match Session.A_add s2, Session.B_add s2 with
  | Some A, Some B =>
      match matrix_addition (Z.of_nat ma) (Z.of_nat na)
                            (Z.of_nat mb) (Z.of_nat nb) A B with
      | Ok res => Shown (s2, g2, res)
      | Raise e => Failed e
      end
  | _, _ => AttributeError
  end.

(** Mode B, feature fusion, lines 391-392 and 395-396. *)
Definition generate_features (dim_face dim_finger : nat) (s : Session.state)
           (g : rng) : Session.state * rng :=
  let (F, g1) := randint 10 50 dim_face 1 g in
  let (G, g2) := randint 1 10 dim_finger 1 g1 in
  (Session.mk_state (Session.A s) (Session.B s) (Session.dims s)
                    (Session.A_add s) (Session.B_add s) (Session.dims_add s)
                    (Some F) (Some G),
   g2).

(** Mode B, feature fusion, line 394: only the face vector is looked at. *)
Definition features_stale (dim_face : nat) (s : Session.state) : bool :=
  match Session.v_face s with
  | None => true
  | Some F => negb (nrows F =? dim_face)%nat
  end.

(** Mode B, feature fusion, lines 390-398. *)
Definition mode_b_fusion_page (dim_face dim_finger : nat) (button : bool)
           (s : Session.state) (g : rng)
  : page_result (Session.state * rng * Addition.steps) :=
  let (s1, g1) :=
    if button then generate_features dim_face dim_finger s g else (s, g) in
  let (s2, g2) :=
    if features_stale dim_face s1
    then generate_features dim_face dim_finger s1 g1 else (s1, g1) in
  match Session.v_face s2, Session.v_finger s2 with
  | Some F, Some G =>
      match stp_addition_stepwise F G with
      | Ok res => Shown (s2, g2, res)
      | Raise e => Failed e
      end
  | _, _ => AttributeError
  end.

End PageModel.

(** What the script relies on from [np.random.randint(low, high, (r, c))]
    with [low < high] inside int64: an int64 array of the requested shape
    with every entry in [low, high). *)
Definition randint_ok {rng : Type}
           (randint : Z -> Z -> nat -> nat -> rng -> ndarray * rng) : Prop :=
  forall (lo hi : Z) (r c : nat) (g : rng),
    lo < hi -> in_int64 lo = true -> in_int64 (hi - 1) = true ->
    shape (fst (randint lo hi r c g)) = (r, c) /\
    wf_ndarray (fst (randint lo hi r c g)) = true /\
    forall i j : nat, (i < r)%nat -> (j < c)%nat ->
                      lo <= entry (fst (randint lo hi r c g)) i j < hi.

(** A generator that always draws the lowest value (for examples). *)
Definition lowest_randint (lo hi : Z) (r c : nat) (g : unit) : ndarray * unit :=
  (mk_ndarray r c (repeat (repeat lo c) r), g).

(** An array of shape [(r, c)] with entries in [lo, hi). *)
Definition drawn_from (lo hi : Z) (r c : nat) (X : ndarray) : Prop :=
  shape X = (r, c) /\ wf_ndarray X = true /\
  forall i j : nat, (i < r)%nat -> (j < c)%nat -> lo <= entry X i j < hi.

(** The state the product mode keeps: stored operands come with their
    recorded dimensions, within the range of the number inputs. *)
Definition product_state_ok (s : Session.state) : Prop :=
  forall A d, Session.A s = Some A -> Session.dims s = Some d ->
    let '(m, n, p, q) := d in
    exists B, Session.B s = Some B /\
              drawn_from 1 5 m n A /\ drawn_from 1 5 p q B.

(** The state the matrix-addition mode keeps. *)
Definition addition_state_ok (s : Session.state) : Prop :=
  forall A d, Session.A_add s = Some A -> Session.dims_add s = Some d ->
    let '(ma, na, mb, nb) := d in
    exists B, Session.B_add s = Some B /\
              drawn_from 1 10 ma na A /\ drawn_from 1 10 mb nb B.

(** The state the fusion mode keeps: a stored face vector comes with a
    fingerprint vector, each drawn for some slider position. *)
Definition fusion_state_ok (s : Session.state) : Prop :=
  forall F, Session.v_face s = Some F ->
    exists G, Session.v_finger s = Some G /\
              drawn_from 10 50 (nrows F) 1 F /\
              drawn_from 1 10 (nrows G) 1 G /\ (2 <= nrows G <= 20)%nat.

(** ** Facts about [get_lcm] *)

Section GetLcm.

Lemma math_gcd_nonzero (a b : Z) : a <> 0 -> math_gcd a b <> 0.
Proof.
  unfold math_gcd. intros Ha Hg.
  apply Z.gcd_eq_0_l in Hg. contradiction.
Qed.

Lemma abs_mul_div_gcd (a b : Z) :
  a <> 0 -> Z.abs (a * b) / Z.gcd a b = Z.lcm a b.
Proof.
  intros Ha.
  assert (Z.gcd a b <> 0) as Hg.
  { intros Hg. apply Z.gcd_eq_0_l in Hg. contradiction. }
  pose proof (Z.gcd_nonneg a b) as Hpos.
  destruct (Z.gcd_divide_r a b) as [k Hk].
  unfold Z.lcm.
  replace (b / Z.gcd a b) with k
    by (rewrite Hk at 1; now rewrite Z.div_mul).
  replace (a * b) with (a * k * Z.gcd a b) by (rewrite Hk at 2; ring).
  rewrite Z.abs_mul, (Z.abs_eq (Z.gcd a b)) by exact Hpos.
  now apply Z.div_mul.
Qed.

Lemma get_lcm_nonzero (a b : Z) :
  a <> 0 -> b <> 0 -> get_lcm a b = Ok (Z.lcm a b).
Proof.
  intros Ha Hb. unfold get_lcm, floordiv.
  destruct (Z.eqb_spec a 0) as [|_]; [contradiction|].
  destruct (Z.eqb_spec b 0) as [|_]; [contradiction|].
  cbn [orb].
  destruct (Z.eqb_spec (math_gcd a b) 0) as [Hg|_].
  - exfalso. now apply (math_gcd_nonzero a b).
  - unfold math_gcd. now rewrite abs_mul_div_gcd.
Qed.

Lemma get_lcm_zero (a b : Z) :
  a = 0 \/ b = 0 -> get_lcm a b = Ok 0.
Proof.
  intros H. unfold get_lcm.
  destruct (Z.eqb_spec a 0); [reflexivity|].
  destruct (Z.eqb_spec b 0); [reflexivity|].
  destruct H; contradiction.
Qed.

Lemma get_lcm_total (a b : Z) : exists L, get_lcm a b = Ok L /\ 0 <= L.
Proof.
  destruct (Z.eq_dec a 0) as [Ha|Ha].
  - exists 0. split; [apply get_lcm_zero; now left | lia].
  - destruct (Z.eq_dec b 0) as [Hb|Hb].
    + exists 0. split; [apply get_lcm_zero; now right | lia].
    + exists (Z.lcm a b). split; [now apply get_lcm_nonzero|].
      apply Z.lcm_nonneg.
Qed.

Lemma lcm_pos (a b : Z) : a <> 0 -> b <> 0 -> 0 < Z.lcm a b.
Proof.
  intros Ha Hb.
  pose proof (Z.lcm_nonneg a b) as Hn.
  assert (Z.lcm a b <> 0) as Hz.
  { intros H0. apply Z.lcm_eq_0 in H0. destruct H0; contradiction. }
  lia.
Qed.

Lemma lcm_div_mul_l (a b : Z) : a <> 0 -> Z.lcm a b / a * a = Z.lcm a b.
Proof.
  intros Ha. destruct (Z.divide_lcm_l a b) as [k Hk].
  rewrite Hk. now rewrite Z.div_mul.
Qed.

Lemma lcm_div_mul_r (a b : Z) : b <> 0 -> Z.lcm a b / b * b = Z.lcm a b.
Proof.
  intros Hb. destruct (Z.divide_lcm_r a b) as [k Hk].
  rewrite Hk. now rewrite Z.div_mul.
Qed.

Lemma reconcile_nonzero (d1 d2 : Z) :
  d1 <> 0 -> d2 <> 0 ->
  reconcile d1 d2 = Ok (Z.lcm d1 d2, Z.lcm d1 d2 / d1, Z.lcm d1 d2 / d2).
Proof.
  intros H1 H2. unfold reconcile.
  rewrite (get_lcm_nonzero _ _ H1 H2). cbn [bind].
  unfold floordiv.
  destruct (Z.eqb_spec d1 0); [contradiction|].
  destruct (Z.eqb_spec d2 0); [contradiction|].
  reflexivity.
Qed.

Lemma reconcile_zero (d1 d2 : Z) :
  d1 = 0 \/ d2 = 0 -> reconcile d1 d2 = Raise ZeroDivisionError.
Proof.
  intros H. unfold reconcile.
  rewrite (get_lcm_zero _ _ H). cbn [bind]. unfold floordiv.
  destruct (Z.eqb_spec d1 0) as [|N1]; [reflexivity|].
  cbn [bind].
  destruct (Z.eqb_spec d2 0) as [|N2]; [reflexivity|].
  destruct H; contradiction.
Qed.

End GetLcm.

(** C1. For positive [d1], [d2] the reconciliation returns
    [L = lcm(d1, d2) = |d1*d2| / gcd(d1, d2)], [alpha = L / d1] and
    [beta = L / d2]; [L] is a positive common multiple of [d1] and [d2] and
    the least one, [alpha * d1 = L], [beta * d2 = L], and both factors are
    positive. *)
Theorem reconcile_positive (d1 d2 : Z) :
  0 < d1 -> 0 < d2 ->
  exists L alpha beta,
    get_lcm d1 d2 = Ok L /\
    reconcile d1 d2 = Ok (L, alpha, beta) /\
    L = Z.lcm d1 d2 /\
    L = Z.abs (d1 * d2) / Z.gcd d1 d2 /\
    alpha = L / d1 /\ beta = L / d2 /\
    L mod d1 = 0 /\ L mod d2 = 0 /\ 0 < L /\
    (forall M, 0 < M -> M mod d1 = 0 -> M mod d2 = 0 -> L <= M) /\
    alpha * d1 = L /\ beta * d2 = L /\
    0 < alpha /\ 0 < beta.
Proof.
  intros H1 H2.
  assert (d1 <> 0) as N1 by lia. assert (d2 <> 0) as N2 by lia.
  exists (Z.lcm d1 d2), (Z.lcm d1 d2 / d1), (Z.lcm d1 d2 / d2).
  pose proof (lcm_pos d1 d2 N1 N2) as HL.
  pose proof (lcm_div_mul_l d1 d2 N1) as Ha.
  pose proof (lcm_div_mul_r d1 d2 N2) as Hb.
  repeat split.
  - now apply get_lcm_nonzero.
  - now apply reconcile_nonzero.
  - symmetry. now apply abs_mul_div_gcd.
  - apply Z.mod_divide; [exact N1 | apply Z.divide_lcm_l].
  - apply Z.mod_divide; [exact N2 | apply Z.divide_lcm_r].
  - exact HL.
  - intros M HM M1 M2.
    apply Z.mod_divide in M1; [|exact N1].
    apply Z.mod_divide in M2; [|exact N2].
    apply Z.divide_pos_le; [exact HM|].
    now apply Z.lcm_least.
  - exact Ha.
  - exact Hb.
  - nia.
  - nia.
Qed.

Lemma reconcile_positive_witness :
  exists L alpha beta,
    get_lcm 4 6 = Ok L /\
    reconcile 4 6 = Ok (L, alpha, beta) /\
    L = Z.lcm 4 6 /\
    L = Z.abs (4 * 6) / Z.gcd 4 6 /\
    alpha = L / 4 /\ beta = L / 6 /\
    L mod 4 = 0 /\ L mod 6 = 0 /\ 0 < L /\
    (forall M, 0 < M -> M mod 4 = 0 -> M mod 6 = 0 -> L <= M) /\
    alpha * 4 = L /\ beta * 6 = L /\
    0 < alpha /\ 0 < beta.
Proof. apply (reconcile_positive 4 6); lia. Defined.

(** C7. Whenever either argument is zero, [get_lcm] returns [0] and raises
    nothing. *)
Theorem get_lcm_zero_returns_zero (a b : Z) :
  a = 0 \/ b = 0 -> get_lcm a b = Ok 0 /\ ~ raises (get_lcm a b).
Proof.
  intros H. rewrite (get_lcm_zero a b H). split; [reflexivity|].
  intros [e He]. discriminate He.
Qed.

Lemma get_lcm_zero_returns_zero_witness :
  get_lcm 0 5 = Ok 0 /\ ~ raises (get_lcm 0 5).
Proof. apply (get_lcm_zero_returns_zero 0 5). left. reflexivity. Defined.

(** C10. [get_lcm] is symmetric on all integers, and on nonzero arguments of
    either sign it returns, without raising, the positive value
    [lcm(|a|, |b|)]: a positive common multiple of [|a|] and [|b|], and the
    least one. *)
Theorem get_lcm_signed (a b : Z) :
  get_lcm a b = get_lcm b a /\
  (a <> 0 -> b <> 0 ->
   exists L,
     get_lcm a b = Ok L /\ ~ raises (get_lcm a b) /\
     L = Z.lcm (Z.abs a) (Z.abs b) /\ 0 < L /\
     L mod Z.abs a = 0 /\ L mod Z.abs b = 0 /\
     (forall M, 0 < M -> M mod Z.abs a = 0 -> M mod Z.abs b = 0 -> L <= M)).
Proof.
  split.
  - unfold get_lcm, math_gcd.
    rewrite (Z.mul_comm a b), (Z.gcd_comm a b), (orb_comm (a =? 0)).
    reflexivity.
  - intros Ha Hb. exists (Z.lcm (Z.abs a) (Z.abs b)).
    assert (Z.abs a <> 0) as Na by lia. assert (Z.abs b <> 0) as Nb by lia.
    assert (get_lcm a b = Ok (Z.lcm (Z.abs a) (Z.abs b))) as HL.
    { rewrite Z.lcm_abs_l, Z.lcm_abs_r. now apply get_lcm_nonzero. }
    repeat split.
    + exact HL.
    + rewrite HL. intros [e He]. discriminate He.
    + now apply lcm_pos.
    + apply Z.mod_divide; [exact Na | apply Z.divide_lcm_l].
    + apply Z.mod_divide; [exact Nb | apply Z.divide_lcm_r].
    + intros M HM M1 M2.
      apply Z.mod_divide in M1; [|exact Na].
      apply Z.mod_divide in M2; [|exact Nb].
      apply Z.divide_pos_le; [exact HM|].
      now apply Z.lcm_least.
Qed.

Lemma get_lcm_signed_witness :
  get_lcm (-4) 6 = get_lcm 6 (-4) /\
  exists L,
    get_lcm (-4) 6 = Ok L /\ ~ raises (get_lcm (-4) 6) /\
    L = Z.lcm (Z.abs (-4)) (Z.abs 6) /\ 0 < L /\
    L mod Z.abs (-4) = 0 /\ L mod Z.abs 6 = 0 /\
    (forall M, 0 < M -> M mod Z.abs (-4) = 0 -> M mod Z.abs 6 = 0 -> L <= M).
Proof.
  destruct (get_lcm_signed (-4) 6) as [Hsym Hpos].
  split; [exact Hsym | apply Hpos; lia].
Defined.

(** ** int64 arithmetic *)

Section Int64.

Lemma in_int64_iff (z : Z) :
  in_int64 z = true <-> - 2 ^ 63 <= z <= 2 ^ 63 - 1.
Proof.
  unfold in_int64, int64_min, int64_max.
  rewrite andb_true_iff, !Z.leb_le. reflexivity.
Qed.

Lemma wrap64_in_range (z : Z) : in_int64 (wrap64 z) = true.
Proof.
  apply in_int64_iff. unfold wrap64.
  pose proof (Z.mod_pos_bound (z + 2 ^ 63) (2 ^ 64) eq_refl) as H.
  change (2 ^ 64) with (2 * 2 ^ 63) in *. lia.
Qed.

Lemma wrap64_small (z : Z) : in_int64 z = true -> wrap64 z = z.
Proof.
  intros H. apply in_int64_iff in H. unfold wrap64.
  rewrite Z.mod_small; [lia|].
  change (2 ^ 64) with (2 * 2 ^ 63). lia.
Qed.

Lemma wrap64_add_l (a b : Z) : wrap64 (wrap64 a + b) = wrap64 (a + b).
Proof.
  unfold wrap64. f_equal.
  replace ((a + 2 ^ 63) mod 2 ^ 64 - 2 ^ 63 + b + 2 ^ 63)
    with ((a + 2 ^ 63) mod 2 ^ 64 + b) by lia.
  rewrite Zplus_mod_idemp_l. f_equal. lia.
Qed.

Lemma wrap64_add_r (a b : Z) : wrap64 (a + wrap64 b) = wrap64 (a + b).
Proof. rewrite (Z.add_comm a), wrap64_add_l. f_equal. lia. Qed.

Lemma mul64_one_r (a : Z) : in_int64 a = true -> mul64 a 1 = a.
Proof. intros H. unfold mul64. rewrite Z.mul_1_r. now apply wrap64_small. Qed.

Lemma mul64_zero_r (a : Z) : mul64 a 0 = 0.
Proof. unfold mul64. rewrite Z.mul_0_r. reflexivity. Qed.

Lemma add64_comm (a b : Z) : add64 a b = add64 b a.
Proof. unfold add64. now rewrite Z.add_comm. Qed.

Lemma add64_exact (a b : Z) : in_int64 (a + b) = true -> add64 a b = a + b.
Proof. apply wrap64_small. Qed.

End Int64.

(** ** Lists of rows *)

Section ListFacts.
Local Open Scope nat_scope.
Context {T U V : Type}.

Lemma length_flat_map_uniform (f : T -> list U) (k : nat) (l : list T) :
  (forall x, In x l -> length (f x) = k) ->
  length (flat_map f l) = length l * k.
Proof.
  induction l as [|x l IH]; intros Hk; cbn [flat_map length]; [reflexivity|].
  rewrite length_app, Hk by (now left).
  rewrite IH by (intros y Hy; apply Hk; now right). lia.
Qed.

Lemma nth_flat_map_uniform (f : T -> list U) (k : nat) (l : list T)
      (dT : T) (dU : U) (i r : nat) :
  (forall x, In x l -> length (f x) = k) ->
  i < length l -> r < k ->
  nth (i * k + r) (flat_map f l) dU = nth r (f (nth i l dT)) dU.
Proof.
  revert i. induction l as [|x l IH]; intros i Hk Hi Hr.
  - cbn in Hi. lia.
  - cbn [flat_map]. destruct i as [|i].
    + cbn [nth Nat.mul Nat.add]. apply app_nth1. rewrite Hk by (now left). exact Hr.
    + replace (S i * k + r) with (length (f x) + (i * k + r))
        by (rewrite Hk by (now left); lia).
      rewrite app_nth2_plus. cbn [nth].
      apply IH; [intros y Hy; apply Hk; now right | cbn in Hi; lia | exact Hr].
Qed.

Lemma nth_map_in (f : T -> U) (l : list T) (dT : T) (dU : U) (i : nat) :
  i < length l -> nth i (map f l) dU = f (nth i l dT).
Proof.
  intros Hi. rewrite (nth_indep _ dU (f dT)) by (now rewrite length_map).
  apply map_nth.
Qed.

Lemma length_map2 (f : T -> U -> V) (l1 : list T) (l2 : list U) :
  length (map2 f l1 l2) = Nat.min (length l1) (length l2).
Proof. unfold map2. now rewrite length_map, length_combine. Qed.

Lemma nth_map2 (f : T -> U -> V) (l1 : list T) (l2 : list U)
      (dT : T) (dU : U) (dV : V) (i : nat) :
  i < length l1 -> i < length l2 ->
  nth i (map2 f l1 l2) dV = f (nth i l1 dT) (nth i l2 dU).
Proof.
  revert l2 i. induction l1 as [|x l1 IH]; intros [|y l2] i H1 H2;
    cbn in H1, H2; try lia.
  destruct i as [|i]; [reflexivity|].
  cbn [map2 combine map nth]. apply IH; lia.
Qed.

Lemma in_map2 (f : T -> U -> V) (l1 : list T) (l2 : list U) (z : V) :
  In z (map2 f l1 l2) -> exists x y, In x l1 /\ In y l2 /\ z = f x y.
Proof.
  unfold map2. intros H. apply in_map_iff in H.
  destruct H as [[x y] [Hz Hin]]. exists x, y.
  split; [eapply in_combine_l; eassumption|].
  split; [eapply in_combine_r; eassumption | now symmetry].
Qed.

End ListFacts.

Lemma map2_comm {T V : Type} (f : T -> T -> V) (l1 l2 : list T) :
  (forall x y, f x y = f y x) -> map2 f l1 l2 = map2 f l2 l1.
Proof.
  intros Hf. revert l2. induction l1 as [|x l1 IH]; intros [|y l2];
    try reflexivity.
  unfold map2 in *. cbn [combine map fst snd]. now rewrite Hf, IH.
Qed.

(** ** Well-formed arrays *)

Section WellFormed.
Local Open Scope nat_scope.

Lemma wf_row_iff (c : nat) (r : list Z) :
  wf_row c r = true <->
  length r = c /\ forall x, In x r -> in_int64 x = true.
Proof.
  unfold wf_row. rewrite andb_true_iff, Nat.eqb_eq, forallb_forall.
  reflexivity.
Qed.

Lemma wf_ndarray_iff (A : ndarray) :
  wf_ndarray A = true <->
  length (data A) = nrows A /\
  forall r, In r (data A) ->
            length r = ncols A /\ forall x, In x r -> in_int64 x = true.
Proof.
  unfold wf_ndarray. rewrite andb_true_iff, Nat.eqb_eq, forallb_forall.
  split; intros [H1 H2]; (split; [exact H1|]); intros r Hr;
    apply wf_row_iff; now apply H2.
Qed.

Lemma wf_length (A : ndarray) :
  wf_ndarray A = true -> length (data A) = nrows A.
Proof. intros H. now apply wf_ndarray_iff in H. Qed.

Lemma wf_row_length (A : ndarray) (i : nat) :
  wf_ndarray A = true -> i < nrows A ->
  length (nth i (data A) []) = ncols A.
Proof.
  intros H Hi. apply wf_ndarray_iff in H. destruct H as [Hl Hr].
  apply Hr, nth_In. now rewrite Hl.
Qed.

Lemma wf_entry (A : ndarray) (i j : nat) :
  wf_ndarray A = true -> i < nrows A -> j < ncols A ->
  in_int64 (entry A i j) = true.
Proof.
  intros H Hi Hj. pose proof (wf_row_length A i H Hi) as Hlen.
  apply wf_ndarray_iff in H. destruct H as [Hl Hr].
  destruct (Hr (nth i (data A) [])) as [_ Hx].
  - apply nth_In. now rewrite Hl.
  - apply Hx. unfold entry. apply nth_In. now rewrite Hlen.
Qed.

Lemma wf_eye (k : nat) : wf_ndarray (eye_array k) = true.
Proof.
  apply wf_ndarray_iff. cbn [eye_array data nrows ncols].
  split; [now rewrite length_map, length_seq|].
  intros r Hr. apply in_map_iff in Hr. destruct Hr as [i [<- _]].
  split; [now rewrite length_map, length_seq|].
  intros x Hx. apply in_map_iff in Hx. destruct Hx as [j [<- _]].
  now destruct (i =? j).
Qed.

Lemma entry_eye (k i j : nat) :
  i < k -> j < k ->
  entry (eye_array k) i j = if i =? j then 1%Z else 0%Z.
Proof.
  intros Hi Hj. unfold entry. cbn [eye_array data].
  rewrite (nth_map_in _ _ 0) by (now rewrite length_seq).
  rewrite (nth_map_in _ _ 0) by (now rewrite length_seq).
  now rewrite !seq_nth.
Qed.

Lemma wf_ones (r c : nat) : wf_ndarray (ones_array r c) = true.
Proof.
  apply wf_ndarray_iff. cbn [ones_array data nrows ncols].
  split; [apply repeat_length|].
  intros row Hrow. apply repeat_spec in Hrow. subst row.
  split; [apply repeat_length|].
  intros x Hx. apply repeat_spec in Hx. now subst x.
Qed.

Lemma entry_ones (r c i j : nat) :
  i < r -> j < c -> entry (ones_array r c) i j = 1%Z.
Proof.
  intros Hi Hj. unfold entry. cbn [ones_array data].
  rewrite nth_repeat_lt by exact Hi. now apply nth_repeat_lt.
Qed.

End WellFormed.

(** ** The Kronecker product *)

Section Kronecker.
Local Open Scope nat_scope.

Lemma kron_row_length (ra rb : list Z) :
  length (flat_map (fun a => map (mul64 a) rb) ra) = length ra * length rb.
Proof.
  apply length_flat_map_uniform. intros x _. apply length_map.
Qed.

Lemma wf_kron (A B : ndarray) :
  wf_ndarray A = true -> wf_ndarray B = true ->
  wf_ndarray (np_kron A B) = true.
Proof.
  intros HA HB.
  apply wf_ndarray_iff in HA. destruct HA as [LA RA].
  apply wf_ndarray_iff in HB. destruct HB as [LB RB].
  apply wf_ndarray_iff. cbn [np_kron data nrows ncols]. split.
  - rewrite (length_flat_map_uniform _ (nrows B)), LA; [reflexivity|].
    intros x _. now rewrite length_map.
  - intros r Hr. apply in_flat_map in Hr. destruct Hr as [ra [Hra Hr]].
    apply in_map_iff in Hr. destruct Hr as [rb [<- Hrb]].
    split.
    + rewrite kron_row_length.
      destruct (RA ra Hra) as [-> _]. destruct (RB rb Hrb) as [-> _].
      reflexivity.
    + intros x Hx. apply in_flat_map in Hx. destruct Hx as [a [_ Hx]].
      apply in_map_iff in Hx. destruct Hx as [b [<- _]].
      apply wrap64_in_range.
Qed.

(** Entry [(i*rB + k, j*cB + l)] of [A (x) B] is [A[i,j] * B[k,l]]. *)
Lemma entry_kron (A B : ndarray) (i j k l : nat) :
  wf_ndarray A = true -> wf_ndarray B = true ->
  i < nrows A -> j < ncols A -> k < nrows B -> l < ncols B ->
  entry (np_kron A B) (i * nrows B + k) (j * ncols B + l) =
  mul64 (entry A i j) (entry B k l).
Proof.
  intros HA HB Hi Hj Hk Hl.
  pose proof (wf_length A HA) as LA. pose proof (wf_length B HB) as LB.
  pose proof (wf_row_length A i HA Hi) as RA.
  pose proof (wf_row_length B k HB Hk) as RB.
  unfold entry. cbn [np_kron data].
  rewrite (nth_flat_map_uniform _ (nrows B) _ [])
    by (try (intros x _; rewrite length_map); lia).
  rewrite (nth_map_in _ _ []) by lia.
  rewrite (nth_flat_map_uniform _ (ncols B) _ 0%Z)
    by (try (intros x _; rewrite length_map); lia).
  rewrite (nth_map_in _ _ 0%Z) by lia.
  reflexivity.
Qed.

(** Expansion by the identity: the entry sits on the diagonal of its
    block, zero elsewhere in the block. *)
Lemma entry_kron_eye (A : ndarray) (a i j k l : nat) :
  wf_ndarray A = true ->
  i < nrows A -> j < ncols A -> k < a -> l < a ->
  entry (np_kron A (eye_array a)) (i * a + k) (j * a + l) =
  if k =? l then entry A i j else 0%Z.
Proof.
  intros HA Hi Hj Hk Hl.
  pose proof (entry_kron A (eye_array a) i j k l HA (wf_eye a) Hi Hj) as E.
  cbn [eye_array nrows ncols] in E. rewrite E by assumption.
  rewrite entry_eye by assumption.
  destruct (k =? l).
  - apply mul64_one_r. now apply wf_entry.
  - apply mul64_zero_r.
Qed.

(** Expansion by ones: the entry fills its whole block. *)
Lemma entry_kron_ones (A : ndarray) (r c i j k l : nat) :
  wf_ndarray A = true ->
  i < nrows A -> j < ncols A -> k < r -> l < c ->
  entry (np_kron A (ones_array r c)) (i * r + k) (j * c + l) = entry A i j.
Proof.
  intros HA Hi Hj Hk Hl.
  pose proof (entry_kron A (ones_array r c) i j k l HA (wf_ones r c) Hi Hj)
    as E.
  cbn [ones_array nrows ncols] in E. rewrite E by assumption.
  rewrite entry_ones by assumption.
  apply mul64_one_r. now apply wf_entry.
Qed.

(** Expansion by a 1-by-1 block of one leaves the array unchanged. *)
Lemma kron_unit (A : ndarray) :
  wf_ndarray A = true -> np_kron A (mk_ndarray 1 1 [[1%Z]]) = A.
Proof.
  intros HA. apply wf_ndarray_iff in HA. destruct HA as [_ RA].
  destruct A as [m n rows]. unfold np_kron. cbn [nrows ncols data] in *.
  rewrite !Nat.mul_1_r. f_equal.
  induction rows as [|ra rows IH]; [reflexivity|].
  cbn [flat_map map app]. f_equal.
  - destruct (RA ra (or_introl eq_refl)) as [_ Hin].
    clear - Hin. induction ra as [|x ra IHr]; [reflexivity|].
    cbn [flat_map map app]. f_equal.
    + apply mul64_one_r, Hin. now left.
    + apply IHr. intros y Hy. apply Hin. now right.
  - apply IH. intros r Hr. apply RA. now right.
Qed.

Lemma eye_array_1 : eye_array 1 = mk_ndarray 1 1 [[1%Z]].
Proof. reflexivity. Qed.

Lemma ones_array_1_1 : ones_array 1 1 = mk_ndarray 1 1 [[1%Z]].
Proof. reflexivity. Qed.

End Kronecker.

(** ** The Kronecker product by index *)

Section KroneckerIndex.
Local Open Scope nat_scope.

Lemma split_index (t k bound : nat) :
  t < bound * k -> t = t / k * k + t mod k /\ t / k < bound /\ t mod k < k.
Proof.
  intros Ht. assert (k <> 0) as Hk by (intros ->; lia).
  repeat split.
  - rewrite (Nat.div_mod_eq t k) at 1. lia.
  - apply Nat.Div0.div_lt_upper_bound. lia.
  - now apply Nat.mod_upper_bound.
Qed.

(** Entry [(r, c)] of [A (x) B] is [A[r / rB, c / cB] * B[r mod rB, c mod cB]]. *)
Lemma entry_kron_div (A B : ndarray) (r c : nat) :
  wf_ndarray A = true -> wf_ndarray B = true ->
  r < nrows A * nrows B -> c < ncols A * ncols B ->
  entry (np_kron A B) r c =
  mul64 (entry A (r / nrows B) (c / ncols B))
        (entry B (r mod nrows B) (c mod ncols B)).
Proof.
  intros HA HB Hr Hc.
  destruct (split_index r (nrows B) (nrows A) Hr) as [Er [Hr1 Hr2]].
  destruct (split_index c (ncols B) (ncols A) Hc) as [Ec [Hc1 Hc2]].
  rewrite Er at 1. rewrite Ec at 1. now apply entry_kron.
Qed.

Lemma entry_kron_eye_div (A : ndarray) (a r c : nat) :
  wf_ndarray A = true -> r < nrows A * a -> c < ncols A * a ->
  entry (np_kron A (eye_array a)) r c =
  if r mod a =? c mod a then entry A (r / a) (c / a) else 0%Z.
Proof.
  intros HA Hr Hc.
  destruct (split_index r a (nrows A) Hr) as [Er [Hr1 Hr2]].
  destruct (split_index c a (ncols A) Hc) as [Ec [Hc1 Hc2]].
  rewrite Er at 1. rewrite Ec at 1. now apply entry_kron_eye.
Qed.

Lemma entry_kron_ones_div (A : ndarray) (ar ac r c : nat) :
  wf_ndarray A = true -> r < nrows A * ar -> c < ncols A * ac ->
  entry (np_kron A (ones_array ar ac)) r c = entry A (r / ar) (c / ac).
Proof.
  intros HA Hr Hc.
  destruct (split_index r ar (nrows A) Hr) as [Er [Hr1 Hr2]].
  destruct (split_index c ac (ncols A) Hc) as [Ec [Hc1 Hc2]].
  rewrite Er at 1. rewrite Ec at 1. now apply entry_kron_ones.
Qed.

End KroneckerIndex.

(** ** The matrix product *)

Section Dot.

Lemma wrap64_fold_dot (l : list (Z * Z)) (acc : Z) :
  wrap64 (fold_left (fun s ab => add64 s (mul64 (fst ab) (snd ab))) l acc) =
  wrap64 (acc + fold_right (fun ab s => fst ab * snd ab + s) 0 l).
Proof.
  revert acc. induction l as [|[x y] l IH]; intros acc; cbn [fold_left fold_right fst snd].
  - now rewrite Z.add_0_r.
  - rewrite IH. unfold add64, mul64.
    rewrite wrap64_add_l, <- Z.add_assoc, (Z.add_comm (wrap64 _)).
    rewrite Z.add_assoc, wrap64_add_r. f_equal. lia.
Qed.

Lemma fold_dot_in_range (l : list (Z * Z)) (acc : Z) :
  in_int64 acc = true ->
  in_int64 (fold_left (fun s ab => add64 s (mul64 (fst ab) (snd ab))) l acc)
  = true.
Proof.
  revert acc. induction l as [|ab l IH]; intros acc H; cbn [fold_left];
    [exact H|].
  apply IH, wrap64_in_range.
Qed.

Lemma dot64_in_range (u v : list Z) : in_int64 (dot64 u v) = true.
Proof. apply fold_dot_in_range. reflexivity. Qed.

(** Accumulating in int64 gives the exact inner product, wrapped once. *)
Lemma dot64_wrap (u v : list Z) : dot64 u v = wrap64 (dot_exact u v).
Proof.
  rewrite <- (wrap64_small (dot64 u v)) by apply dot64_in_range.
  unfold dot64, dot_exact. now rewrite wrap64_fold_dot.
Qed.

Lemma sum_seq_shift (g : nat -> Z) (s n : nat) :
  fold_right (fun k acc => g k + acc) 0 (seq (S s) n) =
  fold_right (fun k acc => g (S k) + acc) 0 (seq s n).
Proof.
  revert s. induction n as [|n IH]; intros s; cbn [seq fold_right];
    [reflexivity|].
  now rewrite IH.
Qed.

Lemma dot_exact_sum (u v : list Z) (n : nat) (g : nat -> Z) :
  length u = n -> length v = n ->
  (forall k, nth k u 0 * nth k v 0 = g k) ->
  dot_exact u v = fold_right (fun k acc => g k + acc) 0 (seq 0 n).
Proof.
  revert v n g. induction u as [|x u IH]; intros [|y v] n g Hu Hv Hg;
    cbn [length] in Hu, Hv; subst n; try discriminate; [reflexivity|].
  cbn [seq fold_right]. rewrite sum_seq_shift.
  unfold dot_exact in *. cbn [combine fold_right fst snd].
  rewrite <- (Hg 0%nat). cbn [nth]. f_equal.
  apply IH; [reflexivity | now injection Hv |].
  intros k. apply (Hg (S k)).
Qed.

Lemma nth_column (B : ndarray) (j k : nat) :
  nth k (column j B) 0 = entry B k j.
Proof.
  unfold column, entry.
  transitivity (nth k (map (fun r => nth j r 0) (data B)) (nth j [] 0)).
  - f_equal. now destruct j.
  - apply (map_nth (fun r => nth j r 0)).
Qed.

Lemma wf_dot (A B : ndarray) :
  wf_ndarray A = true -> wf_ndarray (dot_array A B) = true.
Proof.
  intros HA. apply wf_ndarray_iff. cbn [dot_array data nrows ncols].
  split; [rewrite length_map; now apply wf_length|].
  intros r Hr. apply in_map_iff in Hr. destruct Hr as [ra [<- _]].
  split; [now rewrite length_map, length_seq|].
  intros x Hx. apply in_map_iff in Hx. destruct Hx as [j [<- _]].
  apply dot64_in_range.
Qed.

(** Each entry of [np.dot] is the standard row-by-column sum, wrapped to
    int64. *)
Lemma entry_dot (A B : ndarray) (i j : nat) :
  wf_ndarray A = true -> wf_ndarray B = true ->
  ncols A = nrows B -> (i < nrows A)%nat -> (j < ncols B)%nat ->
  entry (dot_array A B) i j = wrap64 (standard_product_entry A B i j).
Proof.
  intros HA HB Hin Hi Hj.
  pose proof (wf_length A HA) as LA. pose proof (wf_length B HB) as LB.
  unfold entry at 1. cbn [dot_array data].
  rewrite (nth_map_in _ _ []) by lia.
  rewrite (nth_map_in _ _ 0%nat) by (now rewrite length_seq).
  rewrite seq_nth by exact Hj. cbn [Nat.add].
  rewrite dot64_wrap. f_equal. unfold standard_product_entry.
  apply dot_exact_sum.
  - now apply wf_row_length.
  - unfold column. rewrite length_map. lia.
  - intros k. now rewrite nth_column.
Qed.

End Dot.

(** ** Array addition *)

Section Add.
Local Open Scope nat_scope.

Lemma bcast_dim_same (n : nat) : bcast_dim n n = Some n.
Proof. unfold bcast_dim. now rewrite Nat.eqb_refl. Qed.

Lemma bcast_dim_comm (a b : nat) : bcast_dim a b = bcast_dim b a.
Proof.
  unfold bcast_dim. rewrite (Nat.eqb_sym b a).
  destruct (Nat.eqb_spec a b) as [->|Hab]; [reflexivity|].
  destruct (Nat.eqb_spec a 1) as [->|Ha], (Nat.eqb_spec b 1) as [->|Hb];
    reflexivity.
Qed.

Lemma broadcast_to_same (A : ndarray) :
  broadcast_to (nrows A) (ncols A) A = data A.
Proof.
  unfold broadcast_to, broadcast_axis. rewrite !Nat.eqb_refl.
  apply map_id.
Qed.

Lemma add_array_comm (r c : nat) (A B : ndarray) :
  add_array r c A B = add_array r c B A.
Proof.
  unfold add_array. f_equal. apply map2_comm.
  intros x y. apply map2_comm. apply add64_comm.
Qed.

Lemma np_add_comm (A B : ndarray) : np_add A B = np_add B A.
Proof.
  unfold np_add.
  rewrite (bcast_dim_comm (nrows A)), (bcast_dim_comm (ncols A)).
  destruct (bcast_dim (nrows B) (nrows A)) as [r|]; [|reflexivity].
  destruct (bcast_dim (ncols B) (ncols A)) as [c|]; [|reflexivity].
  now rewrite add_array_comm.
Qed.

(** On equal shapes [+] is the plain elementwise int64 sum. *)
Lemma np_add_same_shape (A B : ndarray) :
  shape A = shape B ->
  np_add A B =
  Ok (mk_ndarray (nrows A) (ncols A) (map2 (map2 add64) (data A) (data B))).
Proof.
  unfold shape. intros H. injection H as Hr Hc.
  unfold np_add. rewrite <- Hr, <- Hc, !bcast_dim_same.
  unfold add_array. rewrite broadcast_to_same.
  rewrite Hr, Hc, broadcast_to_same. reflexivity.
Qed.

Lemma wf_add_same (A B : ndarray) :
  wf_ndarray A = true -> wf_ndarray B = true -> shape A = shape B ->
  wf_ndarray
    (mk_ndarray (nrows A) (ncols A) (map2 (map2 add64) (data A) (data B)))
  = true.
Proof.
  unfold shape. intros HA HB H. injection H as Hr Hc.
  apply wf_ndarray_iff in HA. destruct HA as [LA RA].
  apply wf_ndarray_iff in HB. destruct HB as [LB RB].
  apply wf_ndarray_iff. cbn [data nrows ncols]. split.
  - rewrite length_map2. lia.
  - intros r Hin. apply in_map2 in Hin.
    destruct Hin as [ra [rb [Ha [Hb ->]]]].
    destruct (RA ra Ha) as [La _]. destruct (RB rb Hb) as [Lb _].
    split; [rewrite length_map2; lia|].
    intros x Hx. apply in_map2 in Hx. destruct Hx as [u [v [_ [_ ->]]]].
    apply wrap64_in_range.
Qed.

Lemma entry_add_same (A B : ndarray) (i j : nat) :
  wf_ndarray A = true -> wf_ndarray B = true -> shape A = shape B ->
  i < nrows A -> j < ncols A ->
  entry
    (mk_ndarray (nrows A) (ncols A) (map2 (map2 add64) (data A) (data B)))
    i j
  = add64 (entry A i j) (entry B i j).
Proof.
  unfold shape. intros HA HB H Hi Hj. injection H as Hr Hc.
  pose proof (wf_length A HA) as LA. pose proof (wf_length B HB) as LB.
  assert (i < nrows B) as Hi' by lia.
  pose proof (wf_row_length A i HA Hi) as RA.
  pose proof (wf_row_length B i HB Hi') as RB.
  unfold entry. cbn [data].
  rewrite (nth_map2 _ _ _ [] []) by lia.
  apply nth_map2; lia.
Qed.

End Add.

(** ** Running the stepwise functions *)

Section Stepwise.

(** The expansion factors of two positive dimensions, as naturals. *)
Lemma factors_nat (n p : nat) :
  (1 <= n)%nat -> (1 <= p)%nat ->
  exists a b : nat,
    Z.lcm (Z.of_nat n) (Z.of_nat p) / Z.of_nat n = Z.of_nat a /\
    Z.lcm (Z.of_nat n) (Z.of_nat p) / Z.of_nat p = Z.of_nat b /\
    (1 <= a)%nat /\ (1 <= b)%nat /\
    Z.of_nat (n * a) = Z.lcm (Z.of_nat n) (Z.of_nat p) /\
    Z.of_nat (p * b) = Z.lcm (Z.of_nat n) (Z.of_nat p).
Proof.
  intros Hn Hp.
  assert (Z.of_nat n <> 0) as N1 by lia.
  assert (Z.of_nat p <> 0) as N2 by lia.
  pose proof (lcm_pos _ _ N1 N2) as HL.
  pose proof (lcm_div_mul_l _ (Z.of_nat p) N1) as Ha.
  pose proof (lcm_div_mul_r (Z.of_nat n) _ N2) as Hb.
  set (L := Z.lcm (Z.of_nat n) (Z.of_nat p)) in *.
  assert (0 < L / Z.of_nat n) as Pa by nia.
  assert (0 < L / Z.of_nat p) as Pb by nia.
  exists (Z.to_nat (L / Z.of_nat n)), (Z.to_nat (L / Z.of_nat p)).
  rewrite !Nat2Z.inj_mul, !Z2Nat.id by lia.
  repeat split; lia.
Qed.

Lemma floordiv_of_nat (L : Z) (n : nat) :
  (1 <= n)%nat -> floordiv L (Z.of_nat n) = Ok (L / Z.of_nat n).
Proof.
  intros Hn. unfold floordiv.
  destruct (Z.eqb_spec (Z.of_nat n) 0); [lia | reflexivity].
Qed.

Lemma np_eye_of_nat (a : nat) : np_eye (Z.of_nat a) = Ok (eye_array a).
Proof.
  unfold np_eye. destruct (Z.ltb_spec (Z.of_nat a) 0); [lia|].
  now rewrite Nat2Z.id.
Qed.

Lemma np_ones_of_nat (r c : nat) :
  np_ones (Z.of_nat r) (Z.of_nat c) = Ok (ones_array r c).
Proof.
  unfold np_ones.
  destruct (Z.ltb_spec (Z.of_nat r) 0); [lia|].
  destruct (Z.ltb_spec (Z.of_nat c) 0); [lia|].
  cbn [orb]. now rewrite !Nat2Z.id.
Qed.

Lemma get_lcm_of_nat (n p : nat) :
  (1 <= n)%nat -> (1 <= p)%nat ->
  get_lcm (Z.of_nat n) (Z.of_nat p) = Ok (Z.lcm (Z.of_nat n) (Z.of_nat p)).
Proof. intros Hn Hp. apply get_lcm_nonzero; lia. Qed.

Lemma stp_product_stepwise_run (A B : ndarray) (a b : nat) :
  (1 <= ncols A)%nat -> (1 <= nrows B)%nat ->
  Z.lcm (Z.of_nat (ncols A)) (Z.of_nat (nrows B)) / Z.of_nat (ncols A)
  = Z.of_nat a ->
  Z.lcm (Z.of_nat (ncols A)) (Z.of_nat (nrows B)) / Z.of_nat (nrows B)
  = Z.of_nat b ->
  (ncols A * a = nrows B * b)%nat ->
  stp_product_stepwise A B =
  Ok (Product.mk_steps
        (Z.lcm (Z.of_nat (ncols A)) (Z.of_nat (nrows B)))
        (Z.of_nat a) (Z.of_nat b)
        (np_kron A (eye_array a)) (np_kron B (eye_array b))
        (dot_array (np_kron A (eye_array a)) (np_kron B (eye_array b)))).
Proof.
  intros Hn Hp Ea Eb Hab.
  unfold stp_product_stepwise, shape.
  rewrite get_lcm_of_nat by assumption. cbn [bind].
  rewrite !floordiv_of_nat by assumption. cbn [bind].
  rewrite Ea, Eb, !np_eye_of_nat. cbn [bind].
  unfold np_dot. cbn [np_kron ncols nrows eye_array].
  rewrite Hab, Nat.eqb_refl. reflexivity.
Qed.

Lemma stp_addition_stepwise_run (V1 V2 : ndarray) (a b : nat) :
  (1 <= nrows V1)%nat -> (1 <= nrows V2)%nat ->
  Z.lcm (Z.of_nat (nrows V1)) (Z.of_nat (nrows V2)) / Z.of_nat (nrows V1)
  = Z.of_nat a ->
  Z.lcm (Z.of_nat (nrows V1)) (Z.of_nat (nrows V2)) / Z.of_nat (nrows V2)
  = Z.of_nat b ->
  stp_addition_stepwise V1 V2 =
  (Result <- np_add (np_kron V1 (ones_array a 1))
                    (np_kron V2 (ones_array b 1)) ;;
   Ok (Addition.mk_steps
         (Z.lcm (Z.of_nat (nrows V1)) (Z.of_nat (nrows V2)))
         (Z.of_nat a) (Z.of_nat b)
         (np_kron V1 (ones_array a 1)) (np_kron V2 (ones_array b 1))
         Result)).
Proof.
  intros Hm Hp Ea Eb.
  unfold stp_addition_stepwise.
  rewrite get_lcm_of_nat by assumption. cbn [bind].
  rewrite !floordiv_of_nat by assumption. cbn [bind].
  rewrite Ea, Eb.
  rewrite !(np_ones_of_nat _ 1). cbn [bind]. reflexivity.
Qed.

Lemma matrix_addition_run (A B : ndarray) (ar ac br bc : nat) :
  (1 <= nrows A)%nat -> (1 <= ncols A)%nat ->
  (1 <= nrows B)%nat -> (1 <= ncols B)%nat ->
  Z.lcm (Z.of_nat (nrows A)) (Z.of_nat (nrows B)) / Z.of_nat (nrows A)
  = Z.of_nat ar ->
  Z.lcm (Z.of_nat (ncols A)) (Z.of_nat (ncols B)) / Z.of_nat (ncols A)
  = Z.of_nat ac ->
  Z.lcm (Z.of_nat (nrows A)) (Z.of_nat (nrows B)) / Z.of_nat (nrows B)
  = Z.of_nat br ->
  Z.lcm (Z.of_nat (ncols A)) (Z.of_nat (ncols B)) / Z.of_nat (ncols B)
  = Z.of_nat bc ->
  matrix_addition (Z.of_nat (nrows A)) (Z.of_nat (ncols A))
                  (Z.of_nat (nrows B)) (Z.of_nat (ncols B)) A B =
  (Res_add <- np_add (np_kron A (ones_array ar ac))
                     (np_kron B (ones_array br bc)) ;;
   Ok (MatrixAddition.mk_steps
         (Z.lcm (Z.of_nat (nrows A)) (Z.of_nat (nrows B)))
         (Z.lcm (Z.of_nat (ncols A)) (Z.of_nat (ncols B)))
         (Z.of_nat ar) (Z.of_nat ac) (Z.of_nat br) (Z.of_nat bc)
         (np_kron A (ones_array ar ac)) (np_kron B (ones_array br bc))
         Res_add)).
Proof.
  intros HmA HnA HmB HnB Ear Eac Ebr Ebc.
  unfold matrix_addition.
  rewrite !get_lcm_of_nat by assumption. cbn [bind].
  rewrite !floordiv_of_nat by assumption. cbn [bind].
  rewrite Ear, Eac, Ebr, Ebc, !np_ones_of_nat. cbn [bind]. reflexivity.
Qed.

Lemma factor_same (n : nat) :
  (1 <= n)%nat ->
  Z.lcm (Z.of_nat n) (Z.of_nat n) / Z.of_nat n = Z.of_nat 1.
Proof.
  intros Hn. rewrite Z.lcm_diag_nonneg by lia.
  apply Z.div_same. lia.
Qed.

End Stepwise.

(** ** The generalized product *)

(** C2, as amended. For well-formed [A] (m-by-n) and [B] (p-by-q) with all
    dimensions at least 1, [stp_product_stepwise] returns; with
    [L = lcm(n, p)], [alpha = L/n], [beta = L/p], the expanded operand
    [A_kron] is [A (x) I_alpha] of shape (m*alpha)-by-L and [B_kron] is
    [B (x) I_beta] of shape L-by-(q*beta); inside the block of [A[i,j]]
    (resp. [B[i,j]]) the diagonal carries that entry and every other position
    is exactly 0; [Result] is [np.dot(A_kron, B_kron)], of shape
    (m*alpha)-by-(q*beta), each entry being the standard row-by-column sum in
    int64. *)
Theorem stp_product_block_structure (A B : ndarray) :
  wf_ndarray A = true -> wf_ndarray B = true ->
  (1 <= nrows A)%nat -> (1 <= ncols A)%nat ->
  (1 <= nrows B)%nat -> (1 <= ncols B)%nat ->
  exists (r : Product.steps) (a b : nat),
    stp_product_stepwise A B = Ok r /\
    Product.LCM r = Z.lcm (Z.of_nat (ncols A)) (Z.of_nat (nrows B)) /\
    Product.alpha r = Product.LCM r / Z.of_nat (ncols A) /\
    Product.beta r = Product.LCM r / Z.of_nat (nrows B) /\
    Product.alpha r = Z.of_nat a /\ Product.beta r = Z.of_nat b /\
    (1 <= a)%nat /\ (1 <= b)%nat /\
    Product.A_kron r = np_kron A (eye_array a) /\
    Product.B_kron r = np_kron B (eye_array b) /\
    wf_ndarray (Product.A_kron r) = true /\
    wf_ndarray (Product.B_kron r) = true /\
    nrows (Product.A_kron r) = (nrows A * a)%nat /\
    Z.of_nat (ncols (Product.A_kron r)) = Product.LCM r /\
    Z.of_nat (nrows (Product.B_kron r)) = Product.LCM r /\
    ncols (Product.B_kron r) = (ncols B * b)%nat /\
    (forall i j k l : nat,
        (i < nrows A)%nat -> (j < ncols A)%nat -> (k < a)%nat -> (l < a)%nat ->
        entry (Product.A_kron r) (i * a + k) (j * a + l) =
        if (k =? l)%nat then entry A i j else 0) /\
    (forall i j k l : nat,
        (i < nrows B)%nat -> (j < ncols B)%nat -> (k < b)%nat -> (l < b)%nat ->
        entry (Product.B_kron r) (i * b + k) (j * b + l) =
        if (k =? l)%nat then entry B i j else 0) /\
    np_dot (Product.A_kron r) (Product.B_kron r) = Ok (Product.Result r) /\
    wf_ndarray (Product.Result r) = true /\
    shape (Product.Result r) = ((nrows A * a)%nat, (ncols B * b)%nat) /\
    (forall i j : nat,
        (i < nrows A * a)%nat -> (j < ncols B * b)%nat ->
        entry (Product.Result r) i j =
        wrap64 (standard_product_entry (Product.A_kron r) (Product.B_kron r)
                                       i j)).
Proof.
  intros HA HB HmA HnA HmB HnB.
  destruct (factors_nat (ncols A) (nrows B) HnA HmB)
    as [a [b [Ea [Eb [Pa [Pb [La Lb]]]]]]].
  assert (ncols A * a = nrows B * b)%nat as Hab by lia.
  pose proof (wf_kron A _ HA (wf_eye a)) as WA.
  pose proof (wf_kron B _ HB (wf_eye b)) as WB.
  eexists; exists a, b.
  split; [apply (stp_product_stepwise_run A B a b); assumption|].
  cbn [Product.LCM Product.alpha Product.beta Product.A_kron Product.B_kron
       Product.Result].
  repeat split; try (assumption || reflexivity || (symmetry; assumption)).
  - intros i j k l Hi Hj Hk Hl. now apply entry_kron_eye.
  - intros i j k l Hi Hj Hk Hl. now apply entry_kron_eye.
  - unfold np_dot. cbn [np_kron ncols nrows eye_array].
    now rewrite Hab, Nat.eqb_refl.
  - now apply wf_dot.
  - intros i j Hi Hj. apply entry_dot; assumption.
Qed.

Lemma stp_product_block_structure_witness :
  exists (r : Product.steps) (a b : nat),
    stp_product_stepwise (mk_ndarray 2 2 [[1; 2]; [3; 4]])
                         (mk_ndarray 3 2 [[1; 0]; [0; 1]; [1; 1]]) = Ok r /\
    Product.alpha r = Z.of_nat a /\ Product.beta r = Z.of_nat b /\
    nrows (Product.A_kron r) = (2 * a)%nat /\
    ncols (Product.B_kron r) = (2 * b)%nat /\
    shape (Product.Result r) = ((2 * a)%nat, (2 * b)%nat).
Proof.
  destruct (stp_product_block_structure
              (mk_ndarray 2 2 [[1; 2]; [3; 4]])
              (mk_ndarray 3 2 [[1; 0]; [0; 1]; [1; 1]]))
    as [r [a [b H]]]; try reflexivity; try (cbn; lia).
  exists r, a, b. cbn [nrows ncols] in H. tauto.
Defined.

(** C2, the claim as stated fails: for the 2-by-2 [A] and 3-by-2 [B] of the
    first scenario, [alpha = 3] and [beta = 2]; [A_kron] has 6 rows, not 2,
    [B_kron] has 4 columns, not 2, and [Result] is 6-by-4, not 2-by-2. *)
Lemma stp_product_shape_counterexample :
  exists r : Product.steps,
    stp_product_stepwise (mk_ndarray 2 2 [[1; 2]; [3; 4]])
                         (mk_ndarray 3 2 [[1; 0]; [0; 1]; [1; 1]]) = Ok r /\
    Product.LCM r = 6 /\
    shape (Product.A_kron r) = (6%nat, 6%nat) /\
    shape (Product.A_kron r) <> (2%nat, 6%nat) /\
    shape (Product.B_kron r) = (6%nat, 4%nat) /\
    shape (Product.B_kron r) <> (6%nat, 2%nat) /\
    shape (Product.Result r) = (6%nat, 4%nat) /\
    shape (Product.Result r) <> (2%nat, 2%nat).
Proof.
  eexists. split; [vm_compute; reflexivity|].
  cbn. repeat split; try reflexivity; discriminate.
Qed.

(** C3. When the inner dimensions agree ([cols(A) = rows(B)], at least 1),
    [alpha = beta = 1], the expanded operands are [A] and [B] themselves,
    and [Result] is [np.dot(A, B)]: every entry is the standard
    row-by-column sum of [A] and [B] in int64, and the exact sum whenever
    that sum is an int64. *)
Theorem stp_product_matching_dims (A B : ndarray) :
  wf_ndarray A = true -> wf_ndarray B = true ->
  ncols A = nrows B -> (1 <= ncols A)%nat ->
  exists r : Product.steps,
    stp_product_stepwise A B = Ok r /\
    Product.LCM r = Z.of_nat (ncols A) /\
    Product.alpha r = 1 /\ Product.beta r = 1 /\
    Product.A_kron r = A /\ Product.B_kron r = B /\
    np_dot A B = Ok (Product.Result r) /\
    shape (Product.Result r) = (nrows A, ncols B) /\
    wf_ndarray (Product.Result r) = true /\
    (forall i j : nat,
        (i < nrows A)%nat -> (j < ncols B)%nat ->
        entry (Product.Result r) i j = wrap64 (standard_product_entry A B i j) /\
        (in_int64 (standard_product_entry A B i j) = true ->
         entry (Product.Result r) i j = standard_product_entry A B i j)).
Proof.
  intros HA HB Hnp Hn.
  assert (1 <= nrows B)%nat as Hp by lia.
  pose proof (stp_product_stepwise_run A B 1 1 Hn Hp) as Hrun.
  rewrite <- Hnp in Hrun.
  specialize (Hrun (factor_same _ Hn) (factor_same _ Hn) eq_refl).
  rewrite Z.lcm_diag_nonneg in Hrun by lia.
  rewrite eye_array_1, !kron_unit in Hrun by assumption.
  eexists. split; [exact Hrun|].
  cbn [Product.LCM Product.alpha Product.beta Product.A_kron Product.B_kron
       Product.Result].
  repeat split; try reflexivity.
  - unfold np_dot. now rewrite Hnp, Nat.eqb_refl.
  - now apply wf_dot.
  - now apply entry_dot.
  - intros Hex. rewrite entry_dot by assumption. now apply wrap64_small.
Qed.

Lemma stp_product_matching_dims_witness :
  exists r : Product.steps,
    stp_product_stepwise (mk_ndarray 2 2 [[1; 2]; [3; 4]])
                         (mk_ndarray 2 1 [[5]; [6]]) = Ok r /\
    Product.alpha r = 1 /\ Product.beta r = 1 /\
    Product.A_kron r = mk_ndarray 2 2 [[1; 2]; [3; 4]] /\
    Product.B_kron r = mk_ndarray 2 1 [[5]; [6]] /\
    np_dot (mk_ndarray 2 2 [[1; 2]; [3; 4]]) (mk_ndarray 2 1 [[5]; [6]])
    = Ok (Product.Result r).
Proof.
  destruct (stp_product_matching_dims
              (mk_ndarray 2 2 [[1; 2]; [3; 4]]) (mk_ndarray 2 1 [[5]; [6]]))
    as [r H]; try reflexivity; try (cbn; lia).
  exists r. tauto.
Defined.

(** ** The generalized addition of column vectors *)

Section ColumnVectors.
Local Open Scope nat_scope.

(** Entry [i*a + k] of a column vector expanded by [ones(a, 1)]. *)
Lemma entry_kron_ones_column (V : ndarray) (a i k : nat) :
  wf_ndarray V = true -> ncols V = 1 -> i < nrows V -> k < a ->
  entry (np_kron V (ones_array a 1)) (i * a + k) 0 = entry V i 0.
Proof.
  intros HV Hc Hi Hk.
  apply (entry_kron_ones V a 1 i 0 k 0); try assumption; lia.
Qed.

(** The same fact read from the expanded index [t]. *)
Lemma entry_kron_ones_column_div (V : ndarray) (a t : nat) :
  wf_ndarray V = true -> ncols V = 1 -> t < nrows V * a ->
  entry (np_kron V (ones_array a 1)) t 0 = entry V (t / a) 0.
Proof.
  intros HV Hc Ht.
  assert (a <> 0) as Ha by (intros ->; lia).
  rewrite (Nat.div_mod_eq t a) at 1.
  rewrite (Nat.mul_comm a).
  apply entry_kron_ones_column; try assumption.
  - apply Nat.Div0.div_lt_upper_bound. lia.
  - now apply Nat.mod_upper_bound.
Qed.

End ColumnVectors.

(** C4. For well-formed column vectors [V1] (length m) and [V2] (length p)
    of positive lengths, [stp_addition_stepwise] returns; with
    [L = lcm(m, p)], [alpha = L/m], [beta = L/p], the expanded vectors are
    [V1 (x) ones(alpha,1)] and [V2 (x) ones(beta,1)], both of shape L-by-1;
    each run of [alpha] (resp. [beta]) consecutive entries is constant and
    equal to its source entry; [Result] is their elementwise int64 sum, of
    length [L], and the exact sum whenever that sum is an int64. *)
Theorem stp_addition_broadcast (V1 V2 : ndarray) :
  wf_ndarray V1 = true -> wf_ndarray V2 = true ->
  ncols V1 = 1%nat -> ncols V2 = 1%nat ->
  (1 <= nrows V1)%nat -> (1 <= nrows V2)%nat ->
  exists (r : Addition.steps) (a b : nat),
    stp_addition_stepwise V1 V2 = Ok r /\
    Addition.LCM r = Z.lcm (Z.of_nat (nrows V1)) (Z.of_nat (nrows V2)) /\
    Addition.alpha r = Addition.LCM r / Z.of_nat (nrows V1) /\
    Addition.beta r = Addition.LCM r / Z.of_nat (nrows V2) /\
    Addition.alpha r = Z.of_nat a /\ Addition.beta r = Z.of_nat b /\
    (1 <= a)%nat /\ (1 <= b)%nat /\
    Addition.V1_kron r = np_kron V1 (ones_array a 1) /\
    Addition.V2_kron r = np_kron V2 (ones_array b 1) /\
    wf_ndarray (Addition.V1_kron r) = true /\
    wf_ndarray (Addition.V2_kron r) = true /\
    shape (Addition.V1_kron r) = ((nrows V1 * a)%nat, 1%nat) /\
    shape (Addition.V2_kron r) = ((nrows V1 * a)%nat, 1%nat) /\
    Z.of_nat (nrows V1 * a) = Addition.LCM r /\
    (forall i k : nat,
        (i < nrows V1)%nat -> (k < a)%nat ->
        entry (Addition.V1_kron r) (i * a + k) 0 = entry V1 i 0) /\
    (forall i k : nat,
        (i < nrows V2)%nat -> (k < b)%nat ->
        entry (Addition.V2_kron r) (i * b + k) 0 = entry V2 i 0) /\
    np_add (Addition.V1_kron r) (Addition.V2_kron r) = Ok (Addition.Result r) /\
    wf_ndarray (Addition.Result r) = true /\
    shape (Addition.Result r) = ((nrows V1 * a)%nat, 1%nat) /\
    (forall t : nat,
        (t < nrows V1 * a)%nat ->
        entry (Addition.Result r) t 0 =
        add64 (entry (Addition.V1_kron r) t 0) (entry (Addition.V2_kron r) t 0)
        /\
        entry (Addition.Result r) t 0 =
        add64 (entry V1 (t / a) 0) (entry V2 (t / b) 0) /\
        (in_int64 (entry V1 (t / a) 0 + entry V2 (t / b) 0) = true ->
         entry (Addition.Result r) t 0 =
         entry V1 (t / a) 0 + entry V2 (t / b) 0)).
Proof.
  intros H1 H2 C1 C2 Hm Hp.
  destruct (factors_nat (nrows V1) (nrows V2) Hm Hp)
    as [a [b [Ea [Eb [Pa [Pb [La Lb]]]]]]].
  assert (nrows V1 * a = nrows V2 * b)%nat as Hab by lia.
  pose proof (wf_kron V1 _ H1 (wf_ones a 1)) as W1.
  pose proof (wf_kron V2 _ H2 (wf_ones b 1)) as W2.
  assert (shape (np_kron V1 (ones_array a 1)) =
          shape (np_kron V2 (ones_array b 1))) as Hsh.
  { unfold shape. cbn [np_kron nrows ncols ones_array].
    now rewrite C1, C2, Hab. }
  pose proof (stp_addition_stepwise_run V1 V2 a b Hm Hp Ea Eb) as Hrun.
  rewrite (np_add_same_shape _ _ Hsh) in Hrun. cbn [bind] in Hrun.
  assert (forall t : nat, (t < nrows V1 * a)%nat ->
            entry
              (mk_ndarray (nrows (np_kron V1 (ones_array a 1)))
                          (ncols (np_kron V1 (ones_array a 1)))
                          (map2 (map2 add64)
                                (data (np_kron V1 (ones_array a 1)))
                                (data (np_kron V2 (ones_array b 1))))) t 0 =
            add64 (entry V1 (t / a) 0) (entry V2 (t / b) 0)) as Hres.
  { intros t Ht. rewrite entry_add_same; try assumption.
    - rewrite !entry_kron_ones_column_div by (assumption || lia).
      reflexivity.
    - cbn [np_kron ncols ones_array]. lia. }
  eexists; exists a, b. split; [exact Hrun|].
  cbn [Addition.LCM Addition.alpha Addition.beta Addition.V1_kron
       Addition.V2_kron Addition.Result].
  repeat split; try (assumption || reflexivity || (symmetry; assumption)).
  - unfold shape. cbn [np_kron nrows ncols ones_array]. now rewrite C1.
  - unfold shape. cbn [np_kron nrows ncols ones_array]. now rewrite C2, Hab.
  - intros i k Hi Hk. now apply entry_kron_ones_column.
  - intros i k Hi Hk. now apply entry_kron_ones_column.
  - now apply np_add_same_shape.
  - now apply wf_add_same.
  - unfold shape. cbn [np_kron nrows ncols ones_array]. now rewrite C1.
  - rewrite Hres by assumption.
    rewrite !entry_kron_ones_column_div by (assumption || lia). reflexivity.
  - now apply Hres.
  - intros Hex. rewrite Hres by assumption. now apply add64_exact.
Qed.

Lemma stp_addition_broadcast_witness :
  exists (r : Addition.steps) (a b : nat),
    stp_addition_stepwise (mk_ndarray 2 1 [[10]; [20]])
                          (mk_ndarray 3 1 [[1]; [2]; [3]]) = Ok r /\
    Addition.alpha r = Z.of_nat a /\ Addition.beta r = Z.of_nat b /\
    shape (Addition.Result r) = ((2 * a)%nat, 1%nat).
Proof.
  destruct (stp_addition_broadcast
              (mk_ndarray 2 1 [[10]; [20]]) (mk_ndarray 3 1 [[1]; [2]; [3]]))
    as [r [a [b H]]]; try reflexivity; try (cbn; lia).
  exists r, a, b. cbn [nrows ncols] in H. tauto.
Defined.

(** C8. Swapping the two column vectors leaves [Result] (and [L])
    unchanged and swaps [alpha] with [beta], together with the expanded
    operands. *)
Theorem stp_addition_commutative (V1 V2 : ndarray) :
  ncols V1 = 1%nat -> ncols V2 = 1%nat ->
  (1 <= nrows V1)%nat -> (1 <= nrows V2)%nat ->
  exists r12 r21 : Addition.steps,
    stp_addition_stepwise V1 V2 = Ok r12 /\
    stp_addition_stepwise V2 V1 = Ok r21 /\
    Addition.Result r12 = Addition.Result r21 /\
    Addition.LCM r12 = Addition.LCM r21 /\
    Addition.alpha r12 = Addition.beta r21 /\
    Addition.beta r12 = Addition.alpha r21 /\
    Addition.V1_kron r12 = Addition.V2_kron r21 /\
    Addition.V2_kron r12 = Addition.V1_kron r21.
Proof.
  intros C1 C2 Hm Hp.
  destruct (factors_nat (nrows V1) (nrows V2) Hm Hp)
    as [a [b [Ea [Eb [Pa [Pb [La Lb]]]]]]].
  assert (nrows V1 * a = nrows V2 * b)%nat as Hab by lia.
  assert (shape (np_kron V1 (ones_array a 1)) =
          shape (np_kron V2 (ones_array b 1))) as Hsh.
  { unfold shape. cbn [np_kron nrows ncols ones_array].
    now rewrite C1, C2, Hab. }
  pose proof (stp_addition_stepwise_run V1 V2 a b Hm Hp Ea Eb) as R12.
  pose proof (stp_addition_stepwise_run V2 V1 b a Hp Hm) as R21.
  rewrite (Z.lcm_comm (Z.of_nat (nrows V2))) in R21.
  specialize (R21 Eb Ea).
  rewrite (np_add_comm (np_kron V2 _)) in R21.
  rewrite (np_add_same_shape _ _ Hsh) in R12, R21. cbn [bind] in R12, R21.
  eexists; eexists. split; [exact R12|]. split; [exact R21|].
  cbn [Addition.LCM Addition.alpha Addition.beta Addition.V1_kron
       Addition.V2_kron Addition.Result].
  repeat split; reflexivity.
Qed.

Lemma stp_addition_commutative_witness :
  exists r12 r21 : Addition.steps,
    stp_addition_stepwise (mk_ndarray 2 1 [[10]; [20]])
                          (mk_ndarray 3 1 [[1]; [2]; [3]]) = Ok r12 /\
    stp_addition_stepwise (mk_ndarray 3 1 [[1]; [2]; [3]])
                          (mk_ndarray 2 1 [[10]; [20]]) = Ok r21 /\
    Addition.Result r12 = Addition.Result r21 /\
    Addition.LCM r12 = Addition.LCM r21 /\
    Addition.alpha r12 = Addition.beta r21 /\
    Addition.beta r12 = Addition.alpha r21 /\
    Addition.V1_kron r12 = Addition.V2_kron r21 /\
    Addition.V2_kron r12 = Addition.V1_kron r21.
Proof.
  apply (stp_addition_commutative
           (mk_ndarray 2 1 [[10]; [20]]) (mk_ndarray 3 1 [[1]; [2]; [3]]));
    try reflexivity; cbn; lia.
Defined.

(** C9. On [V1 = [[10],[20]]] and [V2 = [[1],[2],[3]]] the addition returns
    [L = 6], [alpha = 3], [beta = 2], the expanded vectors
    [10,10,10,20,20,20] and [1,1,2,2,3,3], and the result
    [11,11,12,22,23,23]. *)
Theorem stp_addition_scenario :
  stp_addition_stepwise (mk_ndarray 2 1 [[10]; [20]])
                        (mk_ndarray 3 1 [[1]; [2]; [3]]) =
  Ok (Addition.mk_steps 6 3 2
        (mk_ndarray 6 1 [[10]; [10]; [10]; [20]; [20]; [20]])
        (mk_ndarray 6 1 [[1]; [1]; [2]; [2]; [3]; [3]])
        (mk_ndarray 6 1 [[11]; [11]; [12]; [22]; [23]; [23]])).
Proof. vm_compute. reflexivity. Qed.

(** ** The generalized addition of matrices *)

(** C5. For well-formed [A] (mA-by-nA) and [B] (mB-by-nB) with all
    dimensions at least 1, the matrix addition returns; rows and columns are
    reconciled independently ([lcm_row = lcm(mA, mB)],
    [lcm_col = lcm(nA, nB)]); each operand is expanded by the Kronecker
    product with the all-ones block of its row factor by column factor, so
    every entry fills its block; both expansions have shape
    lcm_row-by-lcm_col and [Res_add] is their elementwise sum of that shape:
    entry [(i, j)] is the integer
    [A[i / alpha_r, j / alpha_c] + B[i / beta_r, j / beta_c]] wrapped to
    int64, hence that integer itself whenever it is an int64. When the
    shapes of [A] and [B] agree all four factors are 1, the expansions are
    [A] and [B], and [Res_add] is [A + B], entry by entry the integer
    [A[i, j] + B[i, j]] whenever it is an int64. *)
Theorem matrix_addition_broadcast (A B : ndarray) :
  wf_ndarray A = true -> wf_ndarray B = true ->
  (1 <= nrows A)%nat -> (1 <= ncols A)%nat ->
  (1 <= nrows B)%nat -> (1 <= ncols B)%nat ->
  exists (r : MatrixAddition.steps) (ar ac br bc : nat),
    matrix_addition (Z.of_nat (nrows A)) (Z.of_nat (ncols A))
                    (Z.of_nat (nrows B)) (Z.of_nat (ncols B)) A B = Ok r /\
    MatrixAddition.lcm_row r
    = Z.lcm (Z.of_nat (nrows A)) (Z.of_nat (nrows B)) /\
    MatrixAddition.lcm_col r
    = Z.lcm (Z.of_nat (ncols A)) (Z.of_nat (ncols B)) /\
    MatrixAddition.alpha_r r = MatrixAddition.lcm_row r / Z.of_nat (nrows A) /\
    MatrixAddition.alpha_c r = MatrixAddition.lcm_col r / Z.of_nat (ncols A) /\
    MatrixAddition.beta_r r = MatrixAddition.lcm_row r / Z.of_nat (nrows B) /\
    MatrixAddition.beta_c r = MatrixAddition.lcm_col r / Z.of_nat (ncols B) /\
    MatrixAddition.alpha_r r = Z.of_nat ar /\
    MatrixAddition.alpha_c r = Z.of_nat ac /\
    MatrixAddition.beta_r r = Z.of_nat br /\
    MatrixAddition.beta_c r = Z.of_nat bc /\
    MatrixAddition.A_exp r = np_kron A (ones_array ar ac) /\
    MatrixAddition.B_exp r = np_kron B (ones_array br bc) /\
    wf_ndarray (MatrixAddition.A_exp r) = true /\
    wf_ndarray (MatrixAddition.B_exp r) = true /\
    shape (MatrixAddition.A_exp r) = shape (MatrixAddition.Res_add r) /\
    shape (MatrixAddition.B_exp r) = shape (MatrixAddition.Res_add r) /\
    Z.of_nat (nrows (MatrixAddition.Res_add r)) = MatrixAddition.lcm_row r /\
    Z.of_nat (ncols (MatrixAddition.Res_add r)) = MatrixAddition.lcm_col r /\
    (forall i j k l : nat,
        (i < nrows A)%nat -> (j < ncols A)%nat -> (k < ar)%nat -> (l < ac)%nat ->
        entry (MatrixAddition.A_exp r) (i * ar + k) (j * ac + l) = entry A i j)
    /\
    (forall i j k l : nat,
        (i < nrows B)%nat -> (j < ncols B)%nat -> (k < br)%nat -> (l < bc)%nat ->
        entry (MatrixAddition.B_exp r) (i * br + k) (j * bc + l) = entry B i j)
    /\
    np_add (MatrixAddition.A_exp r) (MatrixAddition.B_exp r)
    = Ok (MatrixAddition.Res_add r) /\
    wf_ndarray (MatrixAddition.Res_add r) = true /\
    (forall i j : nat,
        (i < nrows (MatrixAddition.Res_add r))%nat ->
        (j < ncols (MatrixAddition.Res_add r))%nat ->
        entry (MatrixAddition.Res_add r) i j =
        add64 (entry (MatrixAddition.A_exp r) i j)
              (entry (MatrixAddition.B_exp r) i j)) /\
    (forall i j : nat,
        (i < nrows (MatrixAddition.Res_add r))%nat ->
        (j < ncols (MatrixAddition.Res_add r))%nat ->
        entry (MatrixAddition.Res_add r) i j =
        wrap64 (entry A (i / ar) (j / ac) + entry B (i / br) (j / bc)) /\
        (in_int64 (entry A (i / ar) (j / ac) + entry B (i / br) (j / bc))
         = true ->
         entry (MatrixAddition.Res_add r) i j =
         entry A (i / ar) (j / ac) + entry B (i / br) (j / bc))) /\
    (shape A = shape B ->
     ar = 1%nat /\ ac = 1%nat /\ br = 1%nat /\ bc = 1%nat /\
     MatrixAddition.A_exp r = A /\ MatrixAddition.B_exp r = B /\
     np_add A B = Ok (MatrixAddition.Res_add r) /\
     shape (MatrixAddition.Res_add r) = shape A /\
     (forall i j : nat,
         (i < nrows A)%nat -> (j < ncols A)%nat ->
         entry (MatrixAddition.Res_add r) i j =
         wrap64 (entry A i j + entry B i j) /\
         (in_int64 (entry A i j + entry B i j) = true ->
          entry (MatrixAddition.Res_add r) i j = entry A i j + entry B i j))).
Proof.
  intros HA HB HmA HnA HmB HnB.
  destruct (factors_nat (nrows A) (nrows B) HmA HmB)
    as [ar [br [Ear [Ebr [Par [Pbr [Lar Lbr]]]]]]].
  destruct (factors_nat (ncols A) (ncols B) HnA HnB)
    as [ac [bc [Eac [Ebc [Pac [Pbc [Lac Lbc]]]]]]].
  assert (nrows A * ar = nrows B * br)%nat as Hr by lia.
  assert (ncols A * ac = ncols B * bc)%nat as Hc by lia.
  pose proof (wf_kron A _ HA (wf_ones ar ac)) as WA.
  pose proof (wf_kron B _ HB (wf_ones br bc)) as WB.
  assert (shape (np_kron A (ones_array ar ac)) =
          shape (np_kron B (ones_array br bc))) as Hsh.
  { unfold shape. cbn [np_kron nrows ncols ones_array]. now rewrite Hr, Hc. }
  pose proof (matrix_addition_run A B ar ac br bc HmA HnA HmB HnB
                                  Ear Eac Ebr Ebc) as Hrun.
  rewrite (np_add_same_shape _ _ Hsh) in Hrun. cbn [bind] in Hrun.
  assert (forall i j : nat,
             (i < nrows A * ar)%nat -> (j < ncols A * ac)%nat ->
             entry
               (mk_ndarray (nrows (np_kron A (ones_array ar ac)))
                           (ncols (np_kron A (ones_array ar ac)))
                           (map2 (map2 add64)
                                 (data (np_kron A (ones_array ar ac)))
                                 (data (np_kron B (ones_array br bc))))) i j =
             wrap64 (entry A (i / ar) (j / ac) + entry B (i / br) (j / bc)))
    as Hsum.
  { intros i j Hi Hj. rewrite entry_add_same by assumption.
    rewrite !entry_kron_ones_div by (assumption || lia). reflexivity. }
  eexists; exists ar, ac, br, bc. split; [exact Hrun|].
  cbn [MatrixAddition.lcm_row MatrixAddition.lcm_col MatrixAddition.alpha_r
       MatrixAddition.alpha_c MatrixAddition.beta_r MatrixAddition.beta_c
       MatrixAddition.A_exp MatrixAddition.B_exp MatrixAddition.Res_add].
  repeat match goal with |- _ /\ _ => split end;
    try (assumption || reflexivity || (symmetry; assumption)).
  - intros i j k l Hi Hj Hk Hl. now apply entry_kron_ones.
  - intros i j k l Hi Hj Hk Hl. now apply entry_kron_ones.
  - now apply np_add_same_shape.
  - now apply wf_add_same.
  - intros i j Hi Hj. now apply entry_add_same.
  - intros i j Hi Hj. cbn [nrows ncols np_kron ones_array] in Hi, Hj.
    split; [now apply Hsum|].
    intros Hfit. rewrite Hsum by assumption. now apply wrap64_small.
  - intros Hsame. unfold shape in Hsame. injection Hsame as Sr Sc.
    assert (ar = 1 /\ br = 1)%nat as [-> ->].
    { rewrite <- Sr in Ear, Ebr. rewrite factor_same in Ear, Ebr by exact HmA.
      split; now apply Nat2Z.inj. }
    assert (ac = 1 /\ bc = 1)%nat as [-> ->].
    { rewrite <- Sc in Eac, Ebc. rewrite factor_same in Eac, Ebc by exact HnA.
      split; now apply Nat2Z.inj. }
    assert (forall i j : nat,
               (i < nrows A)%nat -> (j < ncols A)%nat ->
               entry
                 (mk_ndarray (nrows (np_kron A (ones_array 1 1)))
                             (ncols (np_kron A (ones_array 1 1)))
                             (map2 (map2 add64)
                                   (data (np_kron A (ones_array 1 1)))
                                   (data (np_kron B (ones_array 1 1))))) i j =
               wrap64 (entry A i j + entry B i j)) as Hsum1.
    { intros i j Hi Hj. rewrite Hsum by lia. now rewrite !Nat.div_1_r. }
    repeat match goal with |- _ /\ _ => split end; try reflexivity.
    + rewrite ones_array_1_1. now apply kron_unit.
    + rewrite ones_array_1_1. now apply kron_unit.
    + rewrite ones_array_1_1, !kron_unit by assumption.
      apply np_add_same_shape. unfold shape. now rewrite Sr, Sc.
    + unfold shape. cbn [nrows ncols np_kron ones_array]. f_equal; lia.
    + intros i j Hi Hj. split; [now apply Hsum1|].
      intros Hfit. rewrite Hsum1 by assumption. now apply wrap64_small.
Qed.

Lemma matrix_addition_broadcast_witness :
  exists (r : MatrixAddition.steps) (ar ac br bc : nat),
    matrix_addition 2 2 3 2 (mk_ndarray 2 2 [[1; 2]; [3; 4]])
                    (mk_ndarray 3 2 [[1; 0]; [0; 1]; [1; 1]]) = Ok r /\
    MatrixAddition.alpha_r r = Z.of_nat ar /\
    MatrixAddition.alpha_c r = Z.of_nat ac /\
    MatrixAddition.beta_r r = Z.of_nat br /\
    MatrixAddition.beta_c r = Z.of_nat bc /\
    np_add (MatrixAddition.A_exp r) (MatrixAddition.B_exp r)
    = Ok (MatrixAddition.Res_add r) /\
    (forall i j : nat,
        (i < nrows (MatrixAddition.Res_add r))%nat ->
        (j < ncols (MatrixAddition.Res_add r))%nat ->
        entry (MatrixAddition.Res_add r) i j =
        wrap64 (entry (mk_ndarray 2 2 [[1; 2]; [3; 4]]) (i / ar) (j / ac) +
                entry (mk_ndarray 3 2 [[1; 0]; [0; 1]; [1; 1]])
                      (i / br) (j / bc)) /\
        (in_int64
           (entry (mk_ndarray 2 2 [[1; 2]; [3; 4]]) (i / ar) (j / ac) +
            entry (mk_ndarray 3 2 [[1; 0]; [0; 1]; [1; 1]]) (i / br) (j / bc))
         = true ->
         entry (MatrixAddition.Res_add r) i j =
         entry (mk_ndarray 2 2 [[1; 2]; [3; 4]]) (i / ar) (j / ac) +
         entry (mk_ndarray 3 2 [[1; 0]; [0; 1]; [1; 1]]) (i / br) (j / bc))).
Proof.
  destruct (matrix_addition_broadcast
              (mk_ndarray 2 2 [[1; 2]; [3; 4]])
              (mk_ndarray 3 2 [[1; 0]; [0; 1]; [1; 1]]))
    as [r [ar [ac [br [bc H]]]]]; try reflexivity; try (cbn; lia).
  exists r, ar, ac, br, bc. cbn [nrows ncols] in H. tauto.
Defined.

(** ** Non-positive dimensions *)

(** C6, as amended. No [InvalidDimension] error exists. [get_lcm] raises
    nothing on a zero or negative dimension: it returns 0 when a dimension
    is 0 and [lcm(|d1|, |d2|)] otherwise. The factor computation that follows
    it raises [ZeroDivisionError] when a dimension is 0 and returns
    factors, raising nothing, when the dimensions are nonzero. *)
Theorem nonpositive_dimension_behaviour (d1 d2 : Z) :
  d1 <= 0 \/ d2 <= 0 ->
  ~ raises (get_lcm d1 d2) /\
  (d1 = 0 \/ d2 = 0 ->
   get_lcm d1 d2 = Ok 0 /\ reconcile d1 d2 = Raise ZeroDivisionError) /\
  (d1 <> 0 -> d2 <> 0 ->
   get_lcm d1 d2 = Ok (Z.lcm (Z.abs d1) (Z.abs d2)) /\
   reconcile d1 d2 =
   Ok (Z.lcm d1 d2, Z.lcm d1 d2 / d1, Z.lcm d1 d2 / d2) /\
   ~ raises (reconcile d1 d2)).
Proof.
  intros _. split; [|split].
  - destruct (get_lcm_total d1 d2) as [L [HL _]]. rewrite HL.
    intros [e He]. discriminate He.
  - intros Hz. split; [now apply get_lcm_zero | now apply reconcile_zero].
  - intros N1 N2. rewrite Z.lcm_abs_l, Z.lcm_abs_r.
    split; [now apply get_lcm_nonzero|].
    rewrite (reconcile_nonzero d1 d2 N1 N2).
    split; [reflexivity|]. intros [e He]. discriminate He.
Qed.

Lemma nonpositive_dimension_behaviour_witness :
  ~ raises (get_lcm (-2) 3) /\
  get_lcm (-2) 3 = Ok (Z.lcm (Z.abs (-2)) (Z.abs 3)) /\
  reconcile (-2) 3 = Ok (Z.lcm (-2) 3, Z.lcm (-2) 3 / (-2), Z.lcm (-2) 3 / 3) /\
  ~ raises (reconcile (-2) 3).
Proof.
  destruct (nonpositive_dimension_behaviour (-2) 3) as [H1 [_ H3]];
    [left; lia|].
  split; [exact H1 | apply H3; lia].
Defined.

(** C6, the claim as stated fails: with a zero dimension [get_lcm] returns
    0, and with a negative dimension the whole reconciliation returns
    [L = 6], [alpha = -3], [beta = 2]; no error is raised in either case. *)
Lemma nonpositive_dimension_counterexample :
  get_lcm 0 5 = Ok 0 /\ ~ raises (get_lcm 0 5) /\
  get_lcm (-2) 3 = Ok 6 /\
  reconcile (-2) 3 = Ok (6, -3, 2) /\ ~ raises (reconcile (-2) 3).
Proof.
  repeat split; try reflexivity; intros [e He]; discriminate He.
Qed.

(** ** Degenerate shapes *)

(** An inner dimension of zero makes the factor computation of
    [stp_product_stepwise] divide by zero. *)
Lemma stp_product_zero_inner_dim (A B : ndarray) :
  ncols A = 0%nat \/ nrows B = 0%nat ->
  stp_product_stepwise A B = Raise ZeroDivisionError.
Proof.
  intros H. unfold stp_product_stepwise, shape.
  rewrite get_lcm_zero by lia. cbn [bind]. unfold floordiv.
  destruct (Z.eqb_spec (Z.of_nat (ncols A)) 0) as [|N1]; [reflexivity|].
  cbn [bind].
  destruct (Z.eqb_spec (Z.of_nat (nrows B)) 0) as [|N2]; [reflexivity|].
  lia.
Qed.

(** ** Further properties of the reconciliation *)

(** X1. [get_lcm] never raises: on every pair of integers it returns a
    non-negative common multiple of both, which is 0 exactly when one of
    them is 0. *)
Theorem get_lcm_common_multiple (a b : Z) :
  exists L,
    get_lcm a b = Ok L /\ 0 <= L /\ (a | L) /\ (b | L) /\
    (L = 0 <-> a = 0 \/ b = 0).
Proof.
  destruct (Z.eq_dec a 0) as [Ha|Ha]; [|destruct (Z.eq_dec b 0) as [Hb|Hb]].
  - exists 0. rewrite get_lcm_zero by (now left).
    repeat split; try lia; apply Z.divide_0_r.
  - exists 0. rewrite get_lcm_zero by (now right).
    repeat split; try lia; apply Z.divide_0_r.
  - exists (Z.lcm a b). rewrite get_lcm_nonzero by assumption.
    pose proof (lcm_pos a b Ha Hb) as HL.
    repeat split; try lia.
    + apply Z.divide_lcm_l.
    + apply Z.divide_lcm_r.
Qed.

(** X2. When a positive dimension divides the other, the common dimension is the
    larger one and only the smaller operand is expanded: the factors are
    [d2 / d1] and 1. *)
Theorem reconcile_divisor (d1 d2 : Z) :
  0 < d1 -> 0 < d2 -> (d1 | d2) ->
  reconcile d1 d2 = Ok (d2, d2 / d1, 1) /\
  reconcile d2 d1 = Ok (d2, 1, d2 / d1).
Proof.
  intros H1 H2 Hdiv.
  assert (Z.lcm d1 d2 = d2) as E by (apply Z.divide_lcm_eq_r; [lia | exact Hdiv]).
  split.
  - rewrite reconcile_nonzero, E by lia. now rewrite Z.div_same by lia.
  - rewrite reconcile_nonzero, Z.lcm_comm, E by lia.
    now rewrite Z.div_same by lia.
Qed.

Lemma reconcile_divisor_witness :
  reconcile 2 6 = Ok (6, 6 / 2, 1) /\ reconcile 6 2 = Ok (6, 1, 6 / 2).
Proof.
  apply (reconcile_divisor 2 6); [lia | lia | exists 3; reflexivity].
Defined.

(** X3. For coprime positive dimensions the common dimension is the product and
    each factor is the other dimension. *)
Theorem reconcile_coprime (d1 d2 : Z) :
  0 < d1 -> 0 < d2 -> Z.gcd d1 d2 = 1 ->
  reconcile d1 d2 = Ok (d1 * d2, d2, d1).
Proof.
  intros H1 H2 Hg.
  assert (Z.lcm d1 d2 = d1 * d2) as E.
  { rewrite <- abs_mul_div_gcd, Hg, Z.div_1_r by lia. apply Z.abs_eq. nia. }
  rewrite reconcile_nonzero, E by lia.
  assert (d1 * d2 / d1 = d2) as -> by (rewrite Z.mul_comm; apply Z.div_mul; lia).
  now rewrite Z.div_mul by lia.
Qed.

Lemma reconcile_coprime_witness : reconcile 2 3 = Ok (2 * 3, 3, 2).
Proof. apply (reconcile_coprime 2 3); [lia | lia | reflexivity]. Defined.

(** X4. On nonzero dimensions of either sign the factors divide exactly
    ([alpha * d1 = L], [beta * d2 = L]) and carry the sign of their
    dimension; a negative factor is rejected by [np.eye] with a
    [ValueError]. *)
Theorem reconcile_factor_signs (d1 d2 : Z) :
  d1 <> 0 -> d2 <> 0 ->
  exists L alpha beta,
    reconcile d1 d2 = Ok (L, alpha, beta) /\ 0 < L /\
    alpha * d1 = L /\ beta * d2 = L /\
    (alpha < 0 <-> d1 < 0) /\ (beta < 0 <-> d2 < 0) /\
    (d1 < 0 -> np_eye alpha = Raise ValueError) /\
    (d2 < 0 -> np_eye beta = Raise ValueError).
Proof.
  intros N1 N2.
  exists (Z.lcm d1 d2), (Z.lcm d1 d2 / d1), (Z.lcm d1 d2 / d2).
  pose proof (lcm_pos d1 d2 N1 N2) as HL.
  pose proof (lcm_div_mul_l d1 d2 N1) as Ha.
  pose proof (lcm_div_mul_r d1 d2 N2) as Hb.
  assert (Z.lcm d1 d2 / d1 < 0 <-> d1 < 0) as Sa by nia.
  assert (Z.lcm d1 d2 / d2 < 0 <-> d2 < 0) as Sb by nia.
  split; [now apply reconcile_nonzero|].
  repeat split; try (assumption || tauto).
  - intros Hneg. apply Sa in Hneg. unfold np_eye.
    now destruct (Z.ltb_spec (Z.lcm d1 d2 / d1) 0); [|lia].
  - intros Hneg. apply Sb in Hneg. unfold np_eye.
    now destruct (Z.ltb_spec (Z.lcm d1 d2 / d2) 0); [|lia].
Qed.

Lemma reconcile_factor_signs_witness :
  exists L alpha beta,
    reconcile (-2) 3 = Ok (L, alpha, beta) /\ 0 < L /\
    alpha * (-2) = L /\ beta * 3 = L /\
    (alpha < 0 <-> -2 < 0) /\ (beta < 0 <-> 3 < 0) /\
    (-2 < 0 -> np_eye alpha = Raise ValueError) /\
    (3 < 0 -> np_eye beta = Raise ValueError).
Proof. apply (reconcile_factor_signs (-2) 3); lia. Defined.

(** ** Sums over an index range *)

Section Sums.

Lemma sum_seq_ext (f g : nat -> Z) (s n : nat) :
  (forall k, (s <= k < s + n)%nat -> f k = g k) ->
  fold_right (fun k acc => f k + acc) 0 (seq s n) =
  fold_right (fun k acc => g k + acc) 0 (seq s n).
Proof.
  revert s. induction n as [|n IH]; intros s H; cbn [seq fold_right];
    [reflexivity|].
  rewrite H by lia. f_equal. apply IH. intros k Hk. apply H. lia.
Qed.

Lemma sum_seq_zero (s n : nat) :
  fold_right (fun k acc => 0 + acc) 0 (seq s n) = 0.
Proof.
  revert s. induction n as [|n IH]; intros s; cbn [seq fold_right];
    [reflexivity|].
  now rewrite IH.
Qed.

(** A sum whose terms vanish off one index. *)
Lemma sum_seq_delta (f : nat -> Z) (j s n : nat) :
  (s <= j < s + n)%nat ->
  fold_right (fun k acc => (if (k =? j)%nat then f k else 0) + acc) 0 (seq s n)
  = f j.
Proof.
  revert s. induction n as [|n IH]; intros s Hj; [lia|].
  cbn [seq fold_right].
  destruct (Nat.eqb_spec s j) as [->|Hne].
  - rewrite (sum_seq_ext _ (fun _ => 0)), sum_seq_zero; [lia|].
    intros k Hk. destruct (Nat.eqb_spec k j); [lia | reflexivity].
  - rewrite IH by lia. lia.
Qed.

Lemma sum_seq_bound (f : nat -> Z) (c : Z) (s n : nat) :
  (forall k, (s <= k < s + n)%nat -> Z.abs (f k) <= c) ->
  Z.abs (fold_right (fun k acc => f k + acc) 0 (seq s n)) <= Z.of_nat n * c.
Proof.
  revert s. induction n as [|n IH]; intros s H; cbn [seq fold_right];
    [cbn; lia|].
  specialize (IH (S s)).
  assert (Z.abs (f s) <= c) as H0 by (apply H; lia).
  assert (Z.abs (fold_right (fun k acc => f k + acc) 0 (seq (S s) n))
          <= Z.of_nat n * c) as H1 by (apply IH; intros k Hk; apply H; lia).
  lia.
Qed.

End Sums.

(** ** Expansion factors equal to one *)

Section FactorOne.

Lemma factor_one_iff (n p : Z) :
  0 < n -> 0 < p -> (Z.lcm n p / n = 1 <-> (p | n)).
Proof.
  intros Hn Hp.
  pose proof (lcm_div_mul_l n p ltac:(lia)) as Hm.
  split.
  - intros H1. rewrite H1 in Hm.
    assert (Z.lcm n p = n) as E by lia.
    rewrite <- E. apply Z.divide_lcm_r.
  - intros Hd.
    assert (Z.lcm n p = n) as ->
        by (rewrite Z.lcm_comm; apply Z.divide_lcm_eq_r; [lia | exact Hd]).
    apply Z.div_same. lia.
Qed.

Lemma factor_one_iff_r (n p : Z) :
  0 < n -> 0 < p -> (Z.lcm n p / p = 1 <-> (n | p)).
Proof.
  intros Hn Hp. rewrite Z.lcm_comm. now apply factor_one_iff.
Qed.

Lemma factors_nat_unique (n p a b : nat) :
  (1 <= n)%nat -> (1 <= p)%nat ->
  Z.lcm (Z.of_nat n) (Z.of_nat p) / Z.of_nat n = Z.of_nat a ->
  Z.lcm (Z.of_nat n) (Z.of_nat p) / Z.of_nat p = Z.of_nat b ->
  (n * a = p * b)%nat /\ (1 <= a)%nat /\ (1 <= b)%nat /\
  Z.of_nat (n * a) = Z.lcm (Z.of_nat n) (Z.of_nat p).
Proof.
  intros Hn Hp Ea Eb.
  destruct (factors_nat n p Hn Hp) as [a' [b' [Ea' [Eb' [Pa [Pb [La Lb]]]]]]].
  assert (a' = a) as -> by (apply Nat2Z.inj; congruence).
  assert (b' = b) as -> by (apply Nat2Z.inj; congruence).
  repeat split; lia.
Qed.

End FactorOne.

(** ** Further properties of the generalized product *)

(** X5. [stp_product_stepwise] fails only by dividing by zero: it returns
    whenever both inner dimensions are at least 1, raises
    [ZeroDivisionError] when one of them is 0, and never raises the
    [ValueError] of [np.eye] or [np.dot]. *)
Theorem stp_product_outcome (A B : ndarray) :
  ((1 <= ncols A)%nat -> (1 <= nrows B)%nat ->
   exists r, stp_product_stepwise A B = Ok r) /\
  (ncols A = 0%nat \/ nrows B = 0%nat ->
   stp_product_stepwise A B = Raise ZeroDivisionError) /\
  stp_product_stepwise A B <> Raise ValueError.
Proof.
  assert ((1 <= ncols A)%nat -> (1 <= nrows B)%nat ->
          exists r, stp_product_stepwise A B = Ok r) as Hok.
  { intros Hn Hp.
    destruct (factors_nat _ _ Hn Hp) as [a [b [Ea [Eb [_ [_ [La Lb]]]]]]].
    eexists. apply (stp_product_stepwise_run A B a b); try assumption. lia. }
  split; [exact Hok|]. split; [apply stp_product_zero_inner_dim|].
  destruct (Nat.eq_dec (ncols A) 0) as [Hn|Hn].
  - rewrite stp_product_zero_inner_dim by (now left). discriminate.
  - destruct (Nat.eq_dec (nrows B) 0) as [Hp|Hp].
    + rewrite stp_product_zero_inner_dim by (now right). discriminate.
    + destruct Hok as [r ->]; [lia | lia | discriminate].
Qed.

Lemma stp_product_outcome_witness :
  (exists r,
      stp_product_stepwise (mk_ndarray 1 2 [[1; 2]]) (mk_ndarray 3 1 [[1]; [2]; [3]])
      = Ok r) /\
  stp_product_stepwise (mk_ndarray 2 0 [[]; []]) (mk_ndarray 3 1 [[1]; [2]; [3]])
  = Raise ZeroDivisionError.
Proof.
  split.
  - apply (stp_product_outcome (mk_ndarray 1 2 [[1; 2]])
                               (mk_ndarray 3 1 [[1]; [2]; [3]])); cbn; lia.
  - apply (stp_product_outcome (mk_ndarray 2 0 [[]; []])
                               (mk_ndarray 3 1 [[1]; [2]; [3]])).
    left. reflexivity.
Defined.

(** X6. An operand is left unexpanded exactly when the other inner dimension
    divides its own: [alpha = 1] iff [rows(B)] divides [cols(A)],
    [beta = 1] iff [cols(A)] divides [rows(B)], and both are 1 iff the
    dimensions are equal. *)
Theorem stp_product_factor_one (A B : ndarray) :
  (1 <= ncols A)%nat -> (1 <= nrows B)%nat ->
  exists r,
    stp_product_stepwise A B = Ok r /\
    (Product.alpha r = 1 <-> (Z.of_nat (nrows B) | Z.of_nat (ncols A))) /\
    (Product.beta r = 1 <-> (Z.of_nat (ncols A) | Z.of_nat (nrows B))) /\
    (Product.alpha r = 1 /\ Product.beta r = 1 <-> ncols A = nrows B).
Proof.
  intros Hn Hp.
  destruct (factors_nat _ _ Hn Hp) as [a [b [Ea [Eb [_ [_ [La Lb]]]]]]].
  eexists. split;
    [apply (stp_product_stepwise_run A B a b); try assumption; lia|].
  cbn [Product.alpha Product.beta]. rewrite <- Ea, <- Eb.
  assert (Z.lcm (Z.of_nat (ncols A)) (Z.of_nat (nrows B)) / Z.of_nat (ncols A)
          = 1 <-> (Z.of_nat (nrows B) | Z.of_nat (ncols A))) as Ia
      by (apply factor_one_iff; lia).
  assert (Z.lcm (Z.of_nat (ncols A)) (Z.of_nat (nrows B)) / Z.of_nat (nrows B)
          = 1 <-> (Z.of_nat (ncols A) | Z.of_nat (nrows B))) as Ib
      by (apply factor_one_iff_r; lia).
  split; [exact Ia|]. split; [exact Ib|].
  rewrite Ia, Ib. split.
  - intros [D1 D2]. apply Nat2Z.inj. apply Z.divide_antisym_nonneg; lia || assumption.
  - intros ->. split; apply Z.divide_refl.
Qed.

Lemma stp_product_factor_one_witness :
  exists r,
    stp_product_stepwise (mk_ndarray 1 4 [[1; 2; 3; 4]])
                         (mk_ndarray 2 1 [[5]; [6]]) = Ok r /\
    (Product.alpha r = 1 <-> (Z.of_nat 2 | Z.of_nat 4)) /\
    (Product.beta r = 1 <-> (Z.of_nat 4 | Z.of_nat 2)) /\
    (Product.alpha r = 1 /\ Product.beta r = 1 <-> 4%nat = 2%nat).
Proof.
  apply (stp_product_factor_one (mk_ndarray 1 4 [[1; 2; 3; 4]])
                                (mk_ndarray 2 1 [[5]; [6]])); cbn; lia.
Defined.

(** X7. When [rows(B)] divides [cols(A)], [A] enters the product unchanged and
    only [B] is expanded, by [cols(A) / rows(B)]; symmetrically when
    [cols(A)] divides [rows(B)]. *)
Theorem stp_product_divisible (A B : ndarray) :
  wf_ndarray A = true -> wf_ndarray B = true ->
  (1 <= ncols A)%nat -> (1 <= nrows B)%nat ->
  exists r,
    stp_product_stepwise A B = Ok r /\
    ((Z.of_nat (nrows B) | Z.of_nat (ncols A)) ->
     Product.LCM r = Z.of_nat (ncols A) /\
     Product.beta r = Z.of_nat (ncols A) / Z.of_nat (nrows B) /\
     Product.A_kron r = A) /\
    ((Z.of_nat (ncols A) | Z.of_nat (nrows B)) ->
     Product.LCM r = Z.of_nat (nrows B) /\
     Product.alpha r = Z.of_nat (nrows B) / Z.of_nat (ncols A) /\
     Product.B_kron r = B).
Proof.
  intros HA HB Hn Hp.
  destruct (factors_nat _ _ Hn Hp) as [a [b [Ea [Eb [_ [_ [La Lb]]]]]]].
  eexists. split;
    [apply (stp_product_stepwise_run A B a b); try assumption; lia|].
  cbn [Product.LCM Product.alpha Product.beta Product.A_kron Product.B_kron].
  split; intros Hd.
  - assert (Z.lcm (Z.of_nat (ncols A)) (Z.of_nat (nrows B))
            = Z.of_nat (ncols A)) as E
        by (rewrite Z.lcm_comm; apply Z.divide_lcm_eq_r; [lia | exact Hd]).
    assert (a = 1%nat) as ->.
    { apply Nat2Z.inj. rewrite <- Ea, E. apply Z.div_same. lia. }
    rewrite <- Eb, E, eye_array_1, kron_unit by assumption. tauto.
  - assert (Z.lcm (Z.of_nat (ncols A)) (Z.of_nat (nrows B))
            = Z.of_nat (nrows B)) as E
        by (apply Z.divide_lcm_eq_r; [lia | exact Hd]).
    assert (b = 1%nat) as ->.
    { apply Nat2Z.inj. rewrite <- Eb, E. apply Z.div_same. lia. }
    rewrite <- Ea, E, eye_array_1, kron_unit by assumption. tauto.
Qed.

Lemma stp_product_divisible_witness :
  exists r,
    stp_product_stepwise (mk_ndarray 1 4 [[1; 2; 3; 4]])
                         (mk_ndarray 2 1 [[5]; [6]]) = Ok r /\
    Product.LCM r = Z.of_nat 4 /\
    Product.beta r = Z.of_nat 4 / Z.of_nat 2 /\
    Product.A_kron r = mk_ndarray 1 4 [[1; 2; 3; 4]].
Proof.
  destruct (stp_product_divisible (mk_ndarray 1 4 [[1; 2; 3; 4]])
                                  (mk_ndarray 2 1 [[5]; [6]]))
    as [r [Hr [Hd _]]]; try reflexivity; try (cbn; lia).
  exists r. split; [exact Hr|]. apply Hd. exists 2. reflexivity.
Defined.

(** X8. With a 1-by-1 right operand the product is multiplication by that
    scalar: [A] is not expanded, [Result] has the shape of [A] and each entry
    is [A[i,j] * c] in int64. *)
Theorem stp_product_scalar_right (A B : ndarray) :
  wf_ndarray A = true -> wf_ndarray B = true ->
  shape B = (1%nat, 1%nat) -> (1 <= ncols A)%nat ->
  exists r,
    stp_product_stepwise A B = Ok r /\
    Product.alpha r = 1 /\ Product.beta r = Z.of_nat (ncols A) /\
    Product.A_kron r = A /\
    shape (Product.Result r) = shape A /\
    (forall i j : nat,
        (i < nrows A)%nat -> (j < ncols A)%nat ->
        entry (Product.Result r) i j = mul64 (entry A i j) (entry B 0 0)).
Proof.
  intros HA HB HsB Hn. unfold shape in HsB. injection HsB as Br Bc.
  assert (Z.lcm (Z.of_nat (ncols A)) (Z.of_nat (nrows B)) = Z.of_nat (ncols A))
    as E by (rewrite Br; apply Z.lcm_1_r_nonneg; lia).
  pose proof (stp_product_stepwise_run A B 1 (ncols A) Hn ltac:(lia)) as Hrun.
  rewrite E in Hrun.
  specialize (Hrun ltac:(apply Z.div_same; lia)
                   ltac:(rewrite Br; apply Z.div_1_r) ltac:(lia)).
  rewrite eye_array_1, kron_unit in Hrun by assumption.
  pose proof (wf_kron B _ HB (wf_eye (ncols A))) as WB.
  eexists. split; [exact Hrun|].
  cbn [Product.alpha Product.beta Product.A_kron Product.Result].
  repeat split.
  - unfold shape. cbn [dot_array np_kron eye_array nrows ncols].
    rewrite Bc. f_equal. lia.
  - intros i j Hi Hj.
    rewrite entry_dot; try assumption;
      try (cbn [np_kron eye_array nrows ncols]; lia).
    unfold mul64. f_equal. unfold standard_product_entry.
    rewrite (sum_seq_ext _ (fun k => if (k =? j)%nat
                                     then entry A i k * entry B 0 0 else 0)).
    + apply (sum_seq_delta (fun k => entry A i k * entry B 0 0)). lia.
    + intros k Hk.
      pose proof (entry_kron_eye B (ncols A) 0 0 k j HB) as Ek.
      cbn [Nat.mul Nat.add] in Ek. rewrite Ek by lia.
      destruct (k =? j)%nat; lia.
Qed.

Lemma stp_product_scalar_right_witness :
  exists r,
    stp_product_stepwise (mk_ndarray 2 2 [[1; 2]; [3; 4]]) (mk_ndarray 1 1 [[5]])
    = Ok r /\
    Product.alpha r = 1 /\ Product.beta r = Z.of_nat 2 /\
    Product.A_kron r = mk_ndarray 2 2 [[1; 2]; [3; 4]] /\
    shape (Product.Result r) = (2%nat, 2%nat).
Proof.
  destruct (stp_product_scalar_right (mk_ndarray 2 2 [[1; 2]; [3; 4]])
                                     (mk_ndarray 1 1 [[5]]))
    as [r H]; try reflexivity; try (cbn; lia).
  exists r. cbn [nrows ncols shape] in H. tauto.
Defined.

(** X9. With a 1-by-1 left operand the product is multiplication by that scalar:
    [B] is not expanded, [Result] has the shape of [B] and each entry is
    [c * B[i,j]] in int64. *)
Theorem stp_product_scalar_left (A B : ndarray) :
  wf_ndarray A = true -> wf_ndarray B = true ->
  shape A = (1%nat, 1%nat) -> (1 <= nrows B)%nat ->
  exists r,
    stp_product_stepwise A B = Ok r /\
    Product.alpha r = Z.of_nat (nrows B) /\ Product.beta r = 1 /\
    Product.B_kron r = B /\
    shape (Product.Result r) = shape B /\
    (forall i j : nat,
        (i < nrows B)%nat -> (j < ncols B)%nat ->
        entry (Product.Result r) i j = mul64 (entry A 0 0) (entry B i j)).
Proof.
  intros HA HB HsA Hp. unfold shape in HsA. injection HsA as Ar Ac.
  assert (Z.lcm (Z.of_nat (ncols A)) (Z.of_nat (nrows B)) = Z.of_nat (nrows B))
    as E by (rewrite Ac; apply Z.lcm_1_l_nonneg; lia).
  pose proof (stp_product_stepwise_run A B (nrows B) 1 ltac:(lia) Hp) as Hrun.
  rewrite E in Hrun.
  specialize (Hrun ltac:(rewrite Ac; apply Z.div_1_r)
                   ltac:(apply Z.div_same; lia) ltac:(lia)).
  rewrite eye_array_1, (kron_unit B) in Hrun by assumption.
  pose proof (wf_kron A _ HA (wf_eye (nrows B))) as WA.
  eexists. split; [exact Hrun|].
  cbn [Product.alpha Product.beta Product.B_kron Product.Result].
  repeat split.
  - unfold shape. cbn [dot_array np_kron eye_array nrows ncols].
    rewrite Ar. f_equal. lia.
  - intros i j Hi Hj.
    rewrite entry_dot; try assumption;
      try (cbn [np_kron eye_array nrows ncols]; lia).
    unfold mul64. f_equal. unfold standard_product_entry.
    cbn [np_kron ncols eye_array]. rewrite Ac, Nat.mul_1_l.
    rewrite (sum_seq_ext _ (fun k => if (k =? i)%nat
                                     then entry A 0 0 * entry B k j else 0)).
    + apply (sum_seq_delta (fun k => entry A 0 0 * entry B k j)). lia.
    + intros k Hk.
      pose proof (entry_kron_eye A (nrows B) 0 0 i k HA) as Ek.
      cbn [Nat.mul Nat.add] in Ek. rewrite Ek by lia.
      rewrite (Nat.eqb_sym i k). destruct (k =? i)%nat; lia.
Qed.

Lemma stp_product_scalar_left_witness :
  exists r,
    stp_product_stepwise (mk_ndarray 1 1 [[5]]) (mk_ndarray 2 2 [[1; 2]; [3; 4]])
    = Ok r /\
    Product.alpha r = Z.of_nat 2 /\ Product.beta r = 1 /\
    Product.B_kron r = mk_ndarray 2 2 [[1; 2]; [3; 4]] /\
    shape (Product.Result r) = (2%nat, 2%nat).
Proof.
  destruct (stp_product_scalar_left (mk_ndarray 1 1 [[5]])
                                    (mk_ndarray 2 2 [[1; 2]; [3; 4]]))
    as [r H]; try reflexivity; try (cbn; lia).
  exists r. cbn [nrows ncols shape] in H. tauto.
Defined.

(** X10. The product in terms of the original operands: entry [(i, j)] of
    [Result] is the int64 sum, over the positions [t] of the common
    dimension that fall on the diagonal of both blocks
    ([t mod alpha = i mod alpha] and [t mod beta = j mod beta]), of
    [A[i / alpha, t / alpha] * B[t / beta, j / beta]]. *)
Theorem stp_product_entry_formula (A B : ndarray) :
  wf_ndarray A = true -> wf_ndarray B = true ->
  (1 <= ncols A)%nat -> (1 <= nrows B)%nat ->
  exists (r : Product.steps) (a b : nat),
    stp_product_stepwise A B = Ok r /\
    Product.alpha r = Z.of_nat a /\ Product.beta r = Z.of_nat b /\
    Z.of_nat (ncols A * a) = Product.LCM r /\
    shape (Product.Result r) = ((nrows A * a)%nat, (ncols B * b)%nat) /\
    (forall i j : nat,
        (i < nrows A * a)%nat -> (j < ncols B * b)%nat ->
        entry (Product.Result r) i j =
        wrap64
          (fold_right
             (fun t acc =>
                (if (i mod a =? t mod a)%nat
                 then entry A (i / a) (t / a) else 0) *
                (if (t mod b =? j mod b)%nat
                 then entry B (t / b) (j / b) else 0) + acc)
             0 (seq 0 (ncols A * a)))).
Proof.
  intros HA HB Hn Hp.
  destruct (factors_nat _ _ Hn Hp) as [a [b [Ea [Eb [_ [_ [La Lb]]]]]]].
  assert (ncols A * a = nrows B * b)%nat as Hab by lia.
  pose proof (wf_kron A _ HA (wf_eye a)) as WA.
  pose proof (wf_kron B _ HB (wf_eye b)) as WB.
  eexists; exists a, b. split;
    [apply (stp_product_stepwise_run A B a b); assumption|].
  cbn [Product.LCM Product.alpha Product.beta Product.Result].
  repeat split; try assumption.
  intros i j Hi Hj.
  rewrite entry_dot; try assumption;
    try (cbn [np_kron eye_array nrows ncols]; lia).
  f_equal. unfold standard_product_entry.
  cbn [np_kron eye_array ncols].
  apply (sum_seq_ext
           (fun t => entry (np_kron A (eye_array a)) i t *
                     entry (np_kron B (eye_array b)) t j)).
  intros t Ht.
  rewrite (entry_kron_eye_div A a i t), (entry_kron_eye_div B b t j)
    by (assumption || lia).
  reflexivity.
Qed.

Lemma stp_product_entry_formula_witness :
  exists (r : Product.steps) (a b : nat),
    stp_product_stepwise (mk_ndarray 2 2 [[1; 2]; [3; 4]])
                         (mk_ndarray 3 2 [[1; 0]; [0; 1]; [1; 1]]) = Ok r /\
    Product.alpha r = Z.of_nat a /\ Product.beta r = Z.of_nat b /\
    shape (Product.Result r) = ((2 * a)%nat, (2 * b)%nat).
Proof.
  destruct (stp_product_entry_formula
              (mk_ndarray 2 2 [[1; 2]; [3; 4]])
              (mk_ndarray 3 2 [[1; 0]; [0; 1]; [1; 1]]))
    as [r [a [b H]]]; try reflexivity; try (cbn; lia).
  exists r, a, b. cbn [nrows ncols] in H. tauto.
Defined.

Section Exactness.

(** The product of two identity expansions whose entries are bounded by [M]
    does not wrap when [L * M * M] fits in int64. *)
Lemma dot_kron_eye_exact (A B : ndarray) (a b : nat) (M : Z) (i j : nat) :
  wf_ndarray A = true -> wf_ndarray B = true ->
  (ncols A * a = nrows B * b)%nat ->
  (forall i j : nat, (i < nrows A)%nat -> (j < ncols A)%nat ->
                     Z.abs (entry A i j) <= M) ->
  (forall i j : nat, (i < nrows B)%nat -> (j < ncols B)%nat ->
                     Z.abs (entry B i j) <= M) ->
  0 <= M -> Z.of_nat (ncols A * a) * (M * M) <= int64_max ->
  (i < nrows A * a)%nat -> (j < ncols B * b)%nat ->
  entry (dot_array (np_kron A (eye_array a)) (np_kron B (eye_array b))) i j =
  standard_product_entry (np_kron A (eye_array a)) (np_kron B (eye_array b))
                         i j.
Proof.
  intros HA HB Hab BA BB HM Hfit Hi Hj.
  pose proof (wf_kron A _ HA (wf_eye a)) as WA.
  pose proof (wf_kron B _ HB (wf_eye b)) as WB.
  rewrite entry_dot; try assumption;
    try (cbn [np_kron eye_array nrows ncols]; lia).
  apply wrap64_small, in_int64_iff.
  assert (Z.abs (standard_product_entry (np_kron A (eye_array a))
                                         (np_kron B (eye_array b)) i j)
          <= Z.of_nat (ncols A * a) * (M * M)) as Hb.
  { unfold standard_product_entry. cbn [np_kron eye_array ncols].
    apply (sum_seq_bound
             (fun t => entry (np_kron A (eye_array a)) i t *
                       entry (np_kron B (eye_array b)) t j)).
    intros t Ht.
    rewrite (entry_kron_eye_div A a i t), (entry_kron_eye_div B b t j)
      by (assumption || lia).
    destruct (split_index i a (nrows A) Hi) as [_ [Hi1 _]].
    destruct (split_index j b (ncols B) Hj) as [_ [Hj1 _]].
    destruct (split_index t a (ncols A) ltac:(lia)) as [_ [Ht1 _]].
    destruct (split_index t b (nrows B) ltac:(lia)) as [_ [Ht2 _]].
    pose proof (BA _ _ Hi1 Ht1) as B1. pose proof (BB _ _ Ht2 Hj1) as B2.
    rewrite Z.abs_mul.
    destruct (i mod a =? t mod a)%nat, (t mod b =? j mod b)%nat;
      cbn [Z.abs]; nia. }
  unfold int64_max in Hfit. lia.
Qed.

Lemma lcm_le_mul (n p : Z) : 0 < n -> 0 < p -> Z.lcm n p <= n * p.
Proof.
  intros Hn Hp. apply Z.divide_pos_le; [nia|].
  apply Z.lcm_least; [apply Z.divide_factor_l | apply Z.divide_factor_r].
Qed.

End Exactness.

(** X11. No overflow inside a bound: when every entry of [A] and [B] has
    absolute value at most [M] and [lcm(n, p) * M * M] fits in int64, every
    entry of [Result] is the exact row-by-column sum of the expanded
    operands. *)
Theorem stp_product_exact_within_bound (A B : ndarray) (M : Z) :
  wf_ndarray A = true -> wf_ndarray B = true ->
  (1 <= ncols A)%nat -> (1 <= nrows B)%nat ->
  (forall i j : nat, (i < nrows A)%nat -> (j < ncols A)%nat ->
                     Z.abs (entry A i j) <= M) ->
  (forall i j : nat, (i < nrows B)%nat -> (j < ncols B)%nat ->
                     Z.abs (entry B i j) <= M) ->
  Z.lcm (Z.of_nat (ncols A)) (Z.of_nat (nrows B)) * (M * M) <= int64_max ->
  exists r : Product.steps,
    stp_product_stepwise A B = Ok r /\
    (forall i j : nat,
        (i < nrows (Product.Result r))%nat ->
        (j < ncols (Product.Result r))%nat ->
        entry (Product.Result r) i j =
        standard_product_entry (Product.A_kron r) (Product.B_kron r) i j).
Proof.
  intros HA HB Hn Hp BA BB Hfit.
  destruct (factors_nat _ _ Hn Hp) as [a [b [Ea [Eb [Pa [Pb [La Lb]]]]]]].
  assert (ncols A * a = nrows B * b)%nat as Hab by lia.
  eexists. split;
    [apply (stp_product_stepwise_run A B a b); assumption|].
  cbn [Product.A_kron Product.B_kron Product.Result].
  intros i j Hi Hj.
  cbn [dot_array nrows ncols np_kron eye_array] in Hi, Hj.
  assert (0 <= M) as HM.
  { destruct (split_index i a (nrows A) Hi) as [_ [Hq _]].
    pose proof (BA (i / a)%nat 0%nat Hq ltac:(lia)). lia. }
  apply (dot_kron_eye_exact A B a b M); try assumption.
  now rewrite La.
Qed.

Lemma stp_product_exact_within_bound_witness :
  exists r : Product.steps,
    stp_product_stepwise (mk_ndarray 1 2 [[1; 2]]) (mk_ndarray 1 1 [[3]]) = Ok r /\
    (forall i j : nat,
        (i < nrows (Product.Result r))%nat ->
        (j < ncols (Product.Result r))%nat ->
        entry (Product.Result r) i j =
        standard_product_entry (Product.A_kron r) (Product.B_kron r) i j).
Proof.
  apply (stp_product_exact_within_bound
           (mk_ndarray 1 2 [[1; 2]]) (mk_ndarray 1 1 [[3]]) 3);
    try reflexivity; try (cbn; lia).
  - intros [|[|i]] [|[|[|j]]] Hi Hj; cbn in *; lia.
  - intros [|[|i]] [|[|j]] Hi Hj; cbn in *; lia.
Defined.

(** ** Further properties of the generalized addition *)

Section AdditionOutcome.

Lemma bcast_dim_none (a b : nat) :
  a <> b -> a <> 1%nat -> b <> 1%nat -> bcast_dim a b = None.
Proof.
  intros H1 H2 H3. unfold bcast_dim.
  destruct (Nat.eqb_spec a b); [contradiction|].
  destruct (Nat.eqb_spec a 1); [contradiction|].
  destruct (Nat.eqb_spec b 1); [contradiction|]. reflexivity.
Qed.

Lemma bcast_dim_some (a b : nat) :
  a = b \/ a = 1%nat \/ b = 1%nat -> exists c, bcast_dim a b = Some c.
Proof.
  intros H. unfold bcast_dim.
  destruct (Nat.eqb_spec a b); [eauto|].
  destruct (Nat.eqb_spec a 1); [eauto|].
  destruct (Nat.eqb_spec b 1); [eauto|]. lia.
Qed.

Lemma stp_addition_zero_rows (V1 V2 : ndarray) :
  nrows V1 = 0%nat \/ nrows V2 = 0%nat ->
  stp_addition_stepwise V1 V2 = Raise ZeroDivisionError.
Proof.
  intros H. unfold stp_addition_stepwise.
  rewrite get_lcm_zero by lia. cbn [bind]. unfold floordiv.
  destruct (Z.eqb_spec (Z.of_nat (nrows V1)) 0) as [|N1]; [reflexivity|].
  cbn [bind].
  destruct (Z.eqb_spec (Z.of_nat (nrows V2)) 0) as [|N2]; [reflexivity|].
  lia.
Qed.

End AdditionOutcome.

(** X12. [stp_addition_stepwise] reconciles the row counts only. With an empty
    operand it raises [ZeroDivisionError]; otherwise it returns exactly when
    the column counts are equal or one of them is 1 (the broadcasting rule
    of [+]), and raises [ValueError] when they are not. *)
Theorem stp_addition_outcome (V1 V2 : ndarray) :
  (nrows V1 = 0%nat \/ nrows V2 = 0%nat ->
   stp_addition_stepwise V1 V2 = Raise ZeroDivisionError) /\
  ((1 <= nrows V1)%nat -> (1 <= nrows V2)%nat ->
   ncols V1 = ncols V2 \/ ncols V1 = 1%nat \/ ncols V2 = 1%nat ->
   exists r, stp_addition_stepwise V1 V2 = Ok r) /\
  ((1 <= nrows V1)%nat -> (1 <= nrows V2)%nat ->
   ncols V1 <> ncols V2 -> ncols V1 <> 1%nat -> ncols V2 <> 1%nat ->
   stp_addition_stepwise V1 V2 = Raise ValueError).
Proof.
  split; [apply stp_addition_zero_rows|].
  split; intros Hm Hp;
    destruct (factors_nat _ _ Hm Hp) as [a [b [Ea [Eb [_ [_ [La Lb]]]]]]];
    rewrite (stp_addition_stepwise_run V1 V2 a b Hm Hp Ea Eb);
    unfold np_add; cbn [np_kron ones_array nrows ncols];
    replace (nrows V2 * b)%nat with (nrows V1 * a)%nat by lia;
    rewrite bcast_dim_same, !Nat.mul_1_r.
  - intros Hc. destruct (bcast_dim_some _ _ Hc) as [c ->].
    cbn [bind]. eexists. reflexivity.
  - intros H1 H2 H3. now rewrite bcast_dim_none.
Qed.

Lemma stp_addition_outcome_witness :
  stp_addition_stepwise (mk_ndarray 0 1 []) (mk_ndarray 1 1 [[1]])
  = Raise ZeroDivisionError /\
  (exists r,
      stp_addition_stepwise (mk_ndarray 1 2 [[1; 2]]) (mk_ndarray 2 1 [[3]; [4]])
      = Ok r) /\
  stp_addition_stepwise (mk_ndarray 1 2 [[1; 2]]) (mk_ndarray 1 3 [[3; 4; 5]])
  = Raise ValueError.
Proof.
  split; [|split].
  - apply (stp_addition_outcome (mk_ndarray 0 1 []) (mk_ndarray 1 1 [[1]])).
    left. reflexivity.
  - apply (stp_addition_outcome (mk_ndarray 1 2 [[1; 2]])
                                (mk_ndarray 2 1 [[3]; [4]])); cbn; lia.
  - apply (stp_addition_outcome (mk_ndarray 1 2 [[1; 2]])
                                (mk_ndarray 1 3 [[3; 4; 5]])); cbn; lia.
Defined.

(** X13. On operands of one shape nothing is expanded: [alpha = beta = 1], the
    expanded operands are the operands themselves and [Result] is their
    ordinary elementwise sum: entry [(i, j)] is the integer
    [V1[i, j] + V2[i, j]] wrapped to int64, hence that integer itself
    whenever it is an int64. *)
Theorem stp_addition_same_shape (V1 V2 : ndarray) :
  wf_ndarray V1 = true -> wf_ndarray V2 = true ->
  shape V1 = shape V2 -> (1 <= nrows V1)%nat ->
  exists r,
    stp_addition_stepwise V1 V2 = Ok r /\
    Addition.LCM r = Z.of_nat (nrows V1) /\
    Addition.alpha r = 1 /\ Addition.beta r = 1 /\
    Addition.V1_kron r = V1 /\ Addition.V2_kron r = V2 /\
    np_add V1 V2 = Ok (Addition.Result r) /\
    shape (Addition.Result r) = shape V1 /\
    (forall i j : nat,
        (i < nrows V1)%nat -> (j < ncols V1)%nat ->
        entry (Addition.Result r) i j = wrap64 (entry V1 i j + entry V2 i j) /\
        (in_int64 (entry V1 i j + entry V2 i j) = true ->
         entry (Addition.Result r) i j = entry V1 i j + entry V2 i j)).
Proof.
  intros H1 H2 Hs Hm. pose proof Hs as Hs'.
  unfold shape in Hs'. injection Hs' as Sr Sc.
  pose proof (stp_addition_stepwise_run V1 V2 1 1 Hm ltac:(lia)) as Hrun.
  rewrite <- Sr in Hrun.
  specialize (Hrun (factor_same _ Hm) (factor_same _ Hm)).
  rewrite Z.lcm_diag_nonneg in Hrun by lia.
  rewrite ones_array_1_1, !kron_unit in Hrun by assumption.
  rewrite (np_add_same_shape _ _ Hs) in Hrun. cbn [bind] in Hrun.
  eexists. split; [exact Hrun|].
  cbn [Addition.LCM Addition.alpha Addition.beta Addition.V1_kron
       Addition.V2_kron Addition.Result].
  repeat match goal with |- _ /\ _ => split end; try reflexivity.
  - now apply np_add_same_shape.
  - intros i j Hi Hj.
    rewrite entry_add_same by assumption. unfold add64.
    split; [reflexivity | apply wrap64_small].
Qed.

Lemma stp_addition_same_shape_witness :
  exists r,
    stp_addition_stepwise (mk_ndarray 2 1 [[10]; [20]]) (mk_ndarray 2 1 [[1]; [2]])
    = Ok r /\
    Addition.LCM r = Z.of_nat 2 /\
    Addition.alpha r = 1 /\ Addition.beta r = 1 /\
    Addition.V1_kron r = mk_ndarray 2 1 [[10]; [20]] /\
    Addition.V2_kron r = mk_ndarray 2 1 [[1]; [2]] /\
    np_add (mk_ndarray 2 1 [[10]; [20]]) (mk_ndarray 2 1 [[1]; [2]])
    = Ok (Addition.Result r) /\
    entry (Addition.Result r) 0 0 = 11 /\
    entry (Addition.Result r) 1 0 = 22.
Proof.
  destruct (stp_addition_same_shape (mk_ndarray 2 1 [[10]; [20]])
                                    (mk_ndarray 2 1 [[1]; [2]]))
    as [r [Hr [HL [Ha [Hb [Hk1 [Hk2 [Hadd [Hsh Hent]]]]]]]]];
    try reflexivity; try (cbn; lia).
  exists r. repeat split; try assumption.
  - apply (Hent 0%nat 0%nat); try reflexivity; cbn; lia.
  - apply (Hent 1%nat 0%nat); try reflexivity; cbn; lia.
Defined.

(** X14. When the length of [V1] divides the length of [V2], [V2] is added
    unexpanded and [V1] is stretched over it: entry [t] of [Result] is the
    integer [V1[t / alpha] + V2[t]] wrapped to int64, hence that integer
    itself whenever it is an int64; a vector of length 1 is added to every
    entry. *)
Theorem stp_addition_divisible (V1 V2 : ndarray) :
  wf_ndarray V1 = true -> wf_ndarray V2 = true ->
  ncols V1 = 1%nat -> ncols V2 = 1%nat ->
  (1 <= nrows V1)%nat -> (1 <= nrows V2)%nat ->
  (Z.of_nat (nrows V1) | Z.of_nat (nrows V2)) ->
  exists (r : Addition.steps) (a : nat),
    stp_addition_stepwise V1 V2 = Ok r /\
    Addition.LCM r = Z.of_nat (nrows V2) /\
    Addition.alpha r = Z.of_nat a /\ nrows V2 = (nrows V1 * a)%nat /\
    Addition.beta r = 1 /\ Addition.V2_kron r = V2 /\
    shape (Addition.Result r) = shape V2 /\
    (forall t : nat,
        (t < nrows V2)%nat ->
        entry (Addition.Result r) t 0 =
        add64 (entry V1 (t / a) 0) (entry V2 t 0) /\
        entry (Addition.Result r) t 0 =
        wrap64 (entry V1 (t / a) 0 + entry V2 t 0) /\
        (in_int64 (entry V1 (t / a) 0 + entry V2 t 0) = true ->
         entry (Addition.Result r) t 0 = entry V1 (t / a) 0 + entry V2 t 0)).
Proof.
  intros H1 H2 C1 C2 Hm Hp Hd.
  destruct (factors_nat _ _ Hm Hp) as [a [b [Ea [Eb [_ [_ [La Lb]]]]]]].
  assert (Z.lcm (Z.of_nat (nrows V1)) (Z.of_nat (nrows V2))
          = Z.of_nat (nrows V2)) as E
      by (apply Z.divide_lcm_eq_r; [lia | exact Hd]).
  assert (b = 1%nat) as ->.
  { apply Nat2Z.inj. rewrite <- Eb, E. apply Z.div_same. lia. }
  assert (nrows V2 = nrows V1 * a)%nat as Hpa by lia.
  pose proof (wf_kron V1 _ H1 (wf_ones a 1)) as W1.
  assert (shape (np_kron V1 (ones_array a 1)) = shape V2) as Hsh.
  { unfold shape. cbn [np_kron nrows ncols ones_array].
    rewrite C1, C2, <- Hpa. reflexivity. }
  pose proof (stp_addition_stepwise_run V1 V2 a 1 Hm Hp Ea Eb) as Hrun.
  rewrite ones_array_1_1, (kron_unit V2) in Hrun by assumption.
  rewrite (np_add_same_shape _ _ Hsh) in Hrun. cbn [bind] in Hrun.
  eexists; exists a. split; [exact Hrun|].
  cbn [Addition.LCM Addition.alpha Addition.beta Addition.V2_kron
       Addition.Result].
  repeat match goal with |- _ /\ _ => split end; try assumption;
    try reflexivity.
  intros t Ht.
  assert (entry
            (mk_ndarray (nrows (np_kron V1 (ones_array a 1)))
                        (ncols (np_kron V1 (ones_array a 1)))
                        (map2 (map2 add64)
                              (data (np_kron V1 (ones_array a 1))) (data V2)))
            t 0 = add64 (entry V1 (t / a) 0) (entry V2 t 0)) as Hsum.
  { rewrite entry_add_same; try assumption.
    - rewrite entry_kron_ones_column_div by (assumption || lia). reflexivity.
    - cbn [np_kron nrows ones_array]. lia.
    - cbn [np_kron ncols ones_array]. lia. }
  rewrite Hsum. unfold add64.
  repeat split. apply wrap64_small.
Qed.

Lemma stp_addition_divisible_witness :
  exists (r : Addition.steps) (a : nat),
    stp_addition_stepwise (mk_ndarray 1 1 [[10]]) (mk_ndarray 3 1 [[1]; [2]; [3]])
    = Ok r /\
    Addition.alpha r = Z.of_nat a /\ Addition.beta r = 1 /\
    Addition.V2_kron r = mk_ndarray 3 1 [[1]; [2]; [3]] /\
    (forall t : nat,
        (t < 3)%nat ->
        in_int64 (entry (mk_ndarray 1 1 [[10]]) (t / a) 0 +
                  entry (mk_ndarray 3 1 [[1]; [2]; [3]]) t 0) = true ->
        entry (Addition.Result r) t 0 =
        entry (mk_ndarray 1 1 [[10]]) (t / a) 0 +
        entry (mk_ndarray 3 1 [[1]; [2]; [3]]) t 0).
Proof.
  destruct (stp_addition_divisible (mk_ndarray 1 1 [[10]])
                                   (mk_ndarray 3 1 [[1]; [2]; [3]]))
    as [r [a [Hr [HL [Ha [Hp [Hb [Hk [Hsh Hent]]]]]]]]];
    try reflexivity; try (cbn; lia).
  - exists 3. reflexivity.
  - exists r, a. repeat split; try assumption.
    intros t Ht Hfit. now apply (Hent t).
Defined.

(** ** Further properties of the matrix addition *)

(** X15. On column vectors the matrix addition of Mode B computes what
    [stp_addition_stepwise] computes: the same common dimension, row factors,
    expanded operands and result, with column factors 1. *)
Theorem matrix_addition_on_columns (V1 V2 : ndarray) :
  ncols V1 = 1%nat -> ncols V2 = 1%nat ->
  (1 <= nrows V1)%nat -> (1 <= nrows V2)%nat ->
  exists (r : Addition.steps) (ra : MatrixAddition.steps),
    stp_addition_stepwise V1 V2 = Ok r /\
    matrix_addition (Z.of_nat (nrows V1)) 1 (Z.of_nat (nrows V2)) 1 V1 V2
    = Ok ra /\
    MatrixAddition.lcm_row ra = Addition.LCM r /\
    MatrixAddition.lcm_col ra = 1 /\
    MatrixAddition.alpha_r ra = Addition.alpha r /\
    MatrixAddition.beta_r ra = Addition.beta r /\
    MatrixAddition.alpha_c ra = 1 /\ MatrixAddition.beta_c ra = 1 /\
    MatrixAddition.A_exp ra = Addition.V1_kron r /\
    MatrixAddition.B_exp ra = Addition.V2_kron r /\
    MatrixAddition.Res_add ra = Addition.Result r.
Proof.
  intros C1 C2 Hm Hp.
  destruct (factors_nat _ _ Hm Hp) as [a [b [Ea [Eb [_ [_ [La Lb]]]]]]].
  assert (shape (np_kron V1 (ones_array a 1)) =
          shape (np_kron V2 (ones_array b 1))) as Hsh.
  { unfold shape. cbn [np_kron nrows ncols ones_array].
    rewrite C1, C2. f_equal. lia. }
  pose proof (stp_addition_stepwise_run V1 V2 a b Hm Hp Ea Eb) as R1.
  pose proof (matrix_addition_run V1 V2 a 1 b 1 Hm ltac:(lia) Hp ltac:(lia)
                                  Ea) as R2.
  rewrite C1, C2 in R2.
  specialize (R2 eq_refl Eb eq_refl).
  change (Z.of_nat 1) with 1 in R2. change (Z.lcm 1 1) with 1 in R2.
  rewrite (np_add_same_shape _ _ Hsh) in R1, R2. cbn [bind] in R1, R2.
  eexists; eexists. split; [exact R1|]. split; [exact R2|].
  cbn. repeat split; reflexivity.
Qed.

Lemma matrix_addition_on_columns_witness :
  exists (r : Addition.steps) (ra : MatrixAddition.steps),
    stp_addition_stepwise (mk_ndarray 2 1 [[10]; [20]])
                          (mk_ndarray 3 1 [[1]; [2]; [3]]) = Ok r /\
    matrix_addition 2 1 3 1 (mk_ndarray 2 1 [[10]; [20]])
                    (mk_ndarray 3 1 [[1]; [2]; [3]]) = Ok ra /\
    MatrixAddition.Res_add ra = Addition.Result r.
Proof.
  destruct (matrix_addition_on_columns (mk_ndarray 2 1 [[10]; [20]])
                                       (mk_ndarray 3 1 [[1]; [2]; [3]]))
    as [r [ra H]]; try reflexivity; try (cbn; lia).
  exists r, ra. cbn [nrows ncols] in H. tauto.
Defined.

(** X16. The matrix addition is commutative: swapping the operands (and their
    dimension inputs) leaves [Res_add] and both common dimensions unchanged
    and swaps the factors and the expanded operands. *)
Theorem matrix_addition_commutative (A B : ndarray) :
  (1 <= nrows A)%nat -> (1 <= ncols A)%nat ->
  (1 <= nrows B)%nat -> (1 <= ncols B)%nat ->
  exists rab rba : MatrixAddition.steps,
    matrix_addition (Z.of_nat (nrows A)) (Z.of_nat (ncols A))
                    (Z.of_nat (nrows B)) (Z.of_nat (ncols B)) A B = Ok rab /\
    matrix_addition (Z.of_nat (nrows B)) (Z.of_nat (ncols B))
                    (Z.of_nat (nrows A)) (Z.of_nat (ncols A)) B A = Ok rba /\
    MatrixAddition.Res_add rab = MatrixAddition.Res_add rba /\
    MatrixAddition.lcm_row rab = MatrixAddition.lcm_row rba /\
    MatrixAddition.lcm_col rab = MatrixAddition.lcm_col rba /\
    MatrixAddition.alpha_r rab = MatrixAddition.beta_r rba /\
    MatrixAddition.alpha_c rab = MatrixAddition.beta_c rba /\
    MatrixAddition.beta_r rab = MatrixAddition.alpha_r rba /\
    MatrixAddition.beta_c rab = MatrixAddition.alpha_c rba /\
    MatrixAddition.A_exp rab = MatrixAddition.B_exp rba /\
    MatrixAddition.B_exp rab = MatrixAddition.A_exp rba.
Proof.
  intros HmA HnA HmB HnB.
  destruct (factors_nat _ _ HmA HmB) as [ar [br [Ear [Ebr [_ [_ [Lar Lbr]]]]]]].
  destruct (factors_nat _ _ HnA HnB) as [ac [bc [Eac [Ebc [_ [_ [Lac Lbc]]]]]]].
  assert (shape (np_kron A (ones_array ar ac)) =
          shape (np_kron B (ones_array br bc))) as Hsh.
  { unfold shape. cbn [np_kron nrows ncols ones_array]. f_equal; lia. }
  pose proof (matrix_addition_run A B ar ac br bc HmA HnA HmB HnB
                                  Ear Eac Ebr Ebc) as R1.
  pose proof (matrix_addition_run B A br bc ar ac HmB HnB HmA HnA) as R2.
  rewrite (Z.lcm_comm (Z.of_nat (nrows B))),
          (Z.lcm_comm (Z.of_nat (ncols B))) in R2.
  specialize (R2 Ebr Ebc Ear Eac).
  rewrite (np_add_comm (np_kron B _)) in R2.
  rewrite (np_add_same_shape _ _ Hsh) in R1, R2. cbn [bind] in R1, R2.
  eexists; eexists. split; [exact R1|]. split; [exact R2|].
  cbn. repeat split; reflexivity.
Qed.

Lemma matrix_addition_commutative_witness :
  exists rab rba : MatrixAddition.steps,
    matrix_addition 2 2 3 2 (mk_ndarray 2 2 [[1; 2]; [3; 4]])
                    (mk_ndarray 3 2 [[1; 0]; [0; 1]; [1; 1]]) = Ok rab /\
    matrix_addition 3 2 2 2 (mk_ndarray 3 2 [[1; 0]; [0; 1]; [1; 1]])
                    (mk_ndarray 2 2 [[1; 2]; [3; 4]]) = Ok rba /\
    MatrixAddition.Res_add rab = MatrixAddition.Res_add rba.
Proof.
  destruct (matrix_addition_commutative
              (mk_ndarray 2 2 [[1; 2]; [3; 4]])
              (mk_ndarray 3 2 [[1; 0]; [0; 1]; [1; 1]]))
    as [rab [rba H]]; try (cbn; lia).
  exists rab, rba. cbn [nrows ncols] in H. tauto.
Defined.

(** X17. The matrix addition is a nearest-neighbour resize followed by a sum:
    entry [(i, j)] of [Res_add] is the integer
    [A[i / alpha_r, j / alpha_c] + B[i / beta_r, j / beta_c]] wrapped to
    int64, hence that integer itself whenever it is an int64. *)
Theorem matrix_addition_entry_formula (A B : ndarray) :
  wf_ndarray A = true -> wf_ndarray B = true ->
  (1 <= nrows A)%nat -> (1 <= ncols A)%nat ->
  (1 <= nrows B)%nat -> (1 <= ncols B)%nat ->
  exists (r : MatrixAddition.steps) (ar ac br bc : nat),
    matrix_addition (Z.of_nat (nrows A)) (Z.of_nat (ncols A))
                    (Z.of_nat (nrows B)) (Z.of_nat (ncols B)) A B = Ok r /\
    MatrixAddition.alpha_r r = Z.of_nat ar /\
    MatrixAddition.alpha_c r = Z.of_nat ac /\
    MatrixAddition.beta_r r = Z.of_nat br /\
    MatrixAddition.beta_c r = Z.of_nat bc /\
    shape (MatrixAddition.Res_add r)
    = ((nrows A * ar)%nat, (ncols A * ac)%nat) /\
    shape (MatrixAddition.Res_add r)
    = ((nrows B * br)%nat, (ncols B * bc)%nat) /\
    (forall i j : nat,
        (i < nrows A * ar)%nat -> (j < ncols A * ac)%nat ->
        entry (MatrixAddition.Res_add r) i j =
        add64 (entry A (i / ar) (j / ac)) (entry B (i / br) (j / bc)) /\
        entry (MatrixAddition.Res_add r) i j =
        wrap64 (entry A (i / ar) (j / ac) + entry B (i / br) (j / bc)) /\
        (in_int64 (entry A (i / ar) (j / ac) + entry B (i / br) (j / bc))
         = true ->
         entry (MatrixAddition.Res_add r) i j =
         entry A (i / ar) (j / ac) + entry B (i / br) (j / bc))).
Proof.
  intros HA HB HmA HnA HmB HnB.
  destruct (factors_nat _ _ HmA HmB) as [ar [br [Ear [Ebr [_ [_ [Lar Lbr]]]]]]].
  destruct (factors_nat _ _ HnA HnB) as [ac [bc [Eac [Ebc [_ [_ [Lac Lbc]]]]]]].
  assert (nrows A * ar = nrows B * br)%nat as Hr by lia.
  assert (ncols A * ac = ncols B * bc)%nat as Hc by lia.
  pose proof (wf_kron A _ HA (wf_ones ar ac)) as WA.
  pose proof (wf_kron B _ HB (wf_ones br bc)) as WB.
  assert (shape (np_kron A (ones_array ar ac)) =
          shape (np_kron B (ones_array br bc))) as Hsh.
  { unfold shape. cbn [np_kron nrows ncols ones_array]. now rewrite Hr, Hc. }
  pose proof (matrix_addition_run A B ar ac br bc HmA HnA HmB HnB
                                  Ear Eac Ebr Ebc) as Hrun.
  rewrite (np_add_same_shape _ _ Hsh) in Hrun. cbn [bind] in Hrun.
  eexists; exists ar, ac, br, bc. split; [exact Hrun|].
  cbn [MatrixAddition.alpha_r MatrixAddition.alpha_c MatrixAddition.beta_r
       MatrixAddition.beta_c MatrixAddition.Res_add].
  repeat match goal with |- _ /\ _ => split end; try reflexivity.
  - unfold shape. cbn [np_kron nrows ncols ones_array]. now rewrite Hr, Hc.
  - intros i j Hi Hj.
    rewrite entry_add_same by assumption.
    rewrite !entry_kron_ones_div by (assumption || lia). unfold add64.
    repeat split. apply wrap64_small.
Qed.

Lemma matrix_addition_entry_formula_witness :
  exists (r : MatrixAddition.steps) (ar ac br bc : nat),
    matrix_addition 2 2 3 2 (mk_ndarray 2 2 [[1; 2]; [3; 4]])
                    (mk_ndarray 3 2 [[1; 0]; [0; 1]; [1; 1]]) = Ok r /\
    MatrixAddition.alpha_r r = Z.of_nat ar /\
    MatrixAddition.alpha_c r = Z.of_nat ac /\
    MatrixAddition.beta_r r = Z.of_nat br /\
    MatrixAddition.beta_c r = Z.of_nat bc /\
    shape (MatrixAddition.Res_add r) = ((2 * ar)%nat, (2 * ac)%nat) /\
    (forall i j : nat,
        (i < 2 * ar)%nat -> (j < 2 * ac)%nat ->
        in_int64
          (entry (mk_ndarray 2 2 [[1; 2]; [3; 4]]) (i / ar) (j / ac) +
           entry (mk_ndarray 3 2 [[1; 0]; [0; 1]; [1; 1]]) (i / br) (j / bc))
        = true ->
        entry (MatrixAddition.Res_add r) i j =
        entry (mk_ndarray 2 2 [[1; 2]; [3; 4]]) (i / ar) (j / ac) +
        entry (mk_ndarray 3 2 [[1; 0]; [0; 1]; [1; 1]]) (i / br) (j / bc)).
Proof.
  destruct (matrix_addition_entry_formula
              (mk_ndarray 2 2 [[1; 2]; [3; 4]])
              (mk_ndarray 3 2 [[1; 0]; [0; 1]; [1; 1]]))
    as [r [ar [ac [br [bc [Hr [Har [Hac [Hbr [Hbc [Hs1 [Hs2 Hent]]]]]]]]]]]];
    try reflexivity; try (cbn; lia).
  exists r, ar, ac, br, bc. cbn [nrows ncols] in *.
  repeat split; try assumption.
  intros i j Hi Hj Hfit. now apply (Hent i j).
Defined.

(** ** The page script *)

Section PageFacts.

Lemma lowest_randint_ok : randint_ok lowest_randint.
Proof.
  intros lo hi r c g Hlt Hlo Hhi. cbn [lowest_randint fst].
  split; [reflexivity|]. split.
  - apply wf_ndarray_iff. cbn [data nrows ncols].
    split; [apply repeat_length|].
    intros row Hrow. apply repeat_spec in Hrow. subst row.
    split; [apply repeat_length|].
    intros x Hx. apply repeat_spec in Hx. now subst x.
  - intros i j Hi Hj. unfold entry. cbn [data].
    rewrite nth_repeat_lt by exact Hi. rewrite nth_repeat_lt by exact Hj. lia.
Qed.

Lemma dims_eqb_eq (d e : nat * nat * nat * nat) :
  dims_eqb d e = true <-> d = e.
Proof.
  destruct d as [[[d1 d2] d3] d4], e as [[[e1 e2] e3] e4]. unfold dims_eqb.
  rewrite !andb_true_iff, !Nat.eqb_eq. split.
  - intros [[[-> ->] ->] ->]. reflexivity.
  - intros H. injection H as -> -> -> ->. auto.
Qed.

Lemma dims_eqb_refl (d : nat * nat * nat * nat) : dims_eqb d d = true.
Proof. now apply dims_eqb_eq. Qed.

Lemma empty_product_state_ok : product_state_ok Session.empty.
Proof. intros A d H. discriminate H. Qed.

Lemma empty_addition_state_ok : addition_state_ok Session.empty.
Proof. intros A d H. discriminate H. Qed.

Lemma empty_fusion_state_ok : fusion_state_ok Session.empty.
Proof. intros F H. discriminate H. Qed.

Context {rng : Type}.
Variable randint : Z -> Z -> nat -> nat -> rng -> ndarray * rng.
Hypothesis randint_spec : randint_ok randint.

Lemma randint_drawn (lo hi : Z) (r c : nat) (g : rng) :
  lo < hi -> in_int64 lo = true -> in_int64 (hi - 1) = true ->
  drawn_from lo hi r c (fst (randint lo hi r c g)).
Proof. intros H1 H2 H3. now apply randint_spec. Qed.

Lemma generate_product_operands_spec (m n p q : nat) (s : Session.state)
      (g : rng) :
  exists A B g',
    generate_product_operands rng randint m n p q s g =
    (Session.mk_state (Some A) (Some B) (Some (m, n, p, q))
                      (Session.A_add s) (Session.B_add s) (Session.dims_add s)
                      (Session.v_face s) (Session.v_finger s), g') /\
    A = fst (randint 1 5 m n g) /\
    B = fst (randint 1 5 p q (snd (randint 1 5 m n g))) /\
    drawn_from 1 5 m n A /\ drawn_from 1 5 p q B.
Proof.
  unfold generate_product_operands.
  pose proof (randint_drawn 1 5 m n g eq_refl eq_refl eq_refl) as DA.
  destruct (randint 1 5 m n g) as [A g1]. cbn [fst snd] in *.
  pose proof (randint_drawn 1 5 p q g1 eq_refl eq_refl eq_refl) as DB.
  destruct (randint 1 5 p q g1) as [B g2]. cbn [fst] in *.
  exists A, B, g2. auto.
Qed.

Lemma generate_addition_operands_spec (ma na mb nb : nat) (s : Session.state)
      (g : rng) :
  exists A B g',
    generate_addition_operands rng randint ma na mb nb s g =
    (Session.mk_state (Session.A s) (Session.B s) (Session.dims s)
                      (Some A) (Some B) (Some (ma, na, mb, nb))
                      (Session.v_face s) (Session.v_finger s), g') /\
    drawn_from 1 10 ma na A /\ drawn_from 1 10 mb nb B.
Proof.
  unfold generate_addition_operands.
  pose proof (randint_drawn 1 10 ma na g eq_refl eq_refl eq_refl) as DA.
  destruct (randint 1 10 ma na g) as [A g1]. cbn [fst] in *.
  pose proof (randint_drawn 1 10 mb nb g1 eq_refl eq_refl eq_refl) as DB.
  destruct (randint 1 10 mb nb g1) as [B g2]. cbn [fst] in *.
  exists A, B, g2. auto.
Qed.

Lemma generate_features_spec (dim_face dim_finger : nat) (s : Session.state)
      (g : rng) :
  exists F G g',
    generate_features rng randint dim_face dim_finger s g =
    (Session.mk_state (Session.A s) (Session.B s) (Session.dims s)
                      (Session.A_add s) (Session.B_add s) (Session.dims_add s)
                      (Some F) (Some G), g') /\
    drawn_from 10 50 dim_face 1 F /\ drawn_from 1 10 dim_finger 1 G.
Proof.
  unfold generate_features.
  pose proof (randint_drawn 10 50 dim_face 1 g eq_refl eq_refl eq_refl) as DF.
  destruct (randint 10 50 dim_face 1 g) as [F g1]. cbn [fst] in *.
  pose proof (randint_drawn 1 10 dim_finger 1 g1 eq_refl eq_refl eq_refl) as DG.
  destruct (randint 1 10 dim_finger 1 g1) as [G g2]. cbn [fst] in *.
  exists F, G, g2. auto.
Qed.

End PageFacts.

Section DrawnOperands.

Lemma drawn_from_shape (lo hi : Z) (r c : nat) (X : ndarray) :
  drawn_from lo hi r c X -> nrows X = r /\ ncols X = c.
Proof.
  intros [Hs _]. unfold shape in Hs. injection Hs as -> ->. auto.
Qed.

(** The product of operands drawn from 1..4 with inner dimensions up to 5
    returns and does not wrap. *)
Lemma product_of_drawn (m n p q : nat) (A B : ndarray) :
  drawn_from 1 5 m n A -> drawn_from 1 5 p q B ->
  (1 <= n <= 5)%nat -> (1 <= p <= 5)%nat ->
  exists res,
    stp_product_stepwise A B = Ok res /\
    (forall i j : nat,
        (i < nrows (Product.Result res))%nat ->
        (j < ncols (Product.Result res))%nat ->
        entry (Product.Result res) i j =
        standard_product_entry (Product.A_kron res) (Product.B_kron res) i j).
Proof.
  intros DA DB Hn Hp.
  destruct (drawn_from_shape _ _ _ _ _ DA) as [RA CA].
  destruct (drawn_from_shape _ _ _ _ _ DB) as [RB CB].
  destruct DA as [_ [WA EA]]. destruct DB as [_ [WB EB]]. subst m n p q.
  destruct (factors_nat (ncols A) (nrows B) ltac:(lia) ltac:(lia))
    as [a [b [Ea [Eb [Pa [Pb [La Lb]]]]]]].
  assert (ncols A * a = nrows B * b)%nat as Hab by lia.
  eexists. split;
    [apply (stp_product_stepwise_run A B a b); try assumption; lia|].
  cbn [Product.A_kron Product.B_kron Product.Result].
  intros i j Hi Hj. cbn [dot_array nrows ncols np_kron eye_array] in Hi, Hj.
  apply (dot_kron_eye_exact A B a b 4); try assumption; try lia.
  - intros i' j' Hi' Hj'. pose proof (EA i' j' Hi' Hj'). lia.
  - intros i' j' Hi' Hj'. pose proof (EB i' j' Hi' Hj'). lia.
  - rewrite La.
    pose proof (lcm_le_mul (Z.of_nat (ncols A)) (Z.of_nat (nrows B))
                           ltac:(lia) ltac:(lia)) as Hle.
    assert (Z.of_nat (ncols A) * Z.of_nat (nrows B) <= 25) by nia.
    unfold int64_max. lia.
Qed.

(** The sum of two column vectors, entry by entry. *)
Lemma addition_of_columns (V1 V2 : ndarray) :
  wf_ndarray V1 = true -> wf_ndarray V2 = true ->
  ncols V1 = 1%nat -> ncols V2 = 1%nat ->
  (1 <= nrows V1)%nat -> (1 <= nrows V2)%nat ->
  exists (r : Addition.steps) (a b : nat),
    stp_addition_stepwise V1 V2 = Ok r /\
    (Addition.alpha r = Z.of_nat a /\ Addition.beta r = Z.of_nat b) /\
    Addition.LCM r = Z.lcm (Z.of_nat (nrows V1)) (Z.of_nat (nrows V2)) /\
    Z.of_nat (nrows V1 * a) = Addition.LCM r /\
    (nrows V1 * a = nrows V2 * b)%nat /\
    shape (Addition.Result r) = ((nrows V1 * a)%nat, 1%nat) /\
    (forall t : nat,
        (t < nrows V1 * a)%nat ->
        entry (Addition.Result r) t 0 =
        add64 (entry V1 (t / a) 0) (entry V2 (t / b) 0)).
Proof.
  intros H1 H2 C1 C2 Hm Hp.
  destruct (factors_nat (nrows V1) (nrows V2) Hm Hp)
    as [a [b [Ea [Eb [Pa [Pb [La Lb]]]]]]].
  assert (nrows V1 * a = nrows V2 * b)%nat as Hab by lia.
  pose proof (wf_kron V1 _ H1 (wf_ones a 1)) as W1.
  pose proof (wf_kron V2 _ H2 (wf_ones b 1)) as W2.
  assert (shape (np_kron V1 (ones_array a 1)) =
          shape (np_kron V2 (ones_array b 1))) as Hsh.
  { unfold shape. cbn [np_kron nrows ncols ones_array].
    now rewrite C1, C2, Hab. }
  pose proof (stp_addition_stepwise_run V1 V2 a b Hm Hp Ea Eb) as Hrun.
  rewrite (np_add_same_shape _ _ Hsh) in Hrun. cbn [bind] in Hrun.
  eexists; exists a, b. split; [exact Hrun|].
  cbn [Addition.LCM Addition.Result Addition.alpha Addition.beta].
  repeat split; try assumption.
  - unfold shape. cbn [np_kron nrows ncols ones_array]. now rewrite C1.
  - intros t Ht. rewrite entry_add_same; try assumption.
    + rewrite !entry_kron_ones_column_div by (assumption || lia).
      reflexivity.
    + cbn [np_kron ncols ones_array]. lia.
Qed.

(** The matrix addition of two operands, entry by entry. *)
Lemma addition_of_matrices (A B : ndarray) :
  wf_ndarray A = true -> wf_ndarray B = true ->
  (1 <= nrows A)%nat -> (1 <= ncols A)%nat ->
  (1 <= nrows B)%nat -> (1 <= ncols B)%nat ->
  exists (r : MatrixAddition.steps) (ar ac br bc : nat),
    matrix_addition (Z.of_nat (nrows A)) (Z.of_nat (ncols A))
                    (Z.of_nat (nrows B)) (Z.of_nat (ncols B)) A B = Ok r /\
    (MatrixAddition.alpha_r r = Z.of_nat ar /\
     MatrixAddition.alpha_c r = Z.of_nat ac /\
     MatrixAddition.beta_r r = Z.of_nat br /\
     MatrixAddition.beta_c r = Z.of_nat bc) /\
    shape (MatrixAddition.Res_add r)
    = ((nrows A * ar)%nat, (ncols A * ac)%nat) /\
    Z.of_nat (nrows A * ar) = MatrixAddition.lcm_row r /\
    Z.of_nat (ncols A * ac) = MatrixAddition.lcm_col r /\
    (forall i j : nat,
        (i < nrows A * ar)%nat -> (j < ncols A * ac)%nat ->
        (i / ar < nrows A)%nat /\ (j / ac < ncols A)%nat /\
        (i / br < nrows B)%nat /\ (j / bc < ncols B)%nat /\
        entry (MatrixAddition.Res_add r) i j =
        add64 (entry A (i / ar) (j / ac)) (entry B (i / br) (j / bc))).
Proof.
  intros HA HB HmA HnA HmB HnB.
  destruct (factors_nat _ _ HmA HmB) as [ar [br [Ear [Ebr [_ [_ [Lar Lbr]]]]]]].
  destruct (factors_nat _ _ HnA HnB) as [ac [bc [Eac [Ebc [_ [_ [Lac Lbc]]]]]]].
  assert (nrows A * ar = nrows B * br)%nat as Hr by lia.
  assert (ncols A * ac = ncols B * bc)%nat as Hc by lia.
  pose proof (wf_kron A _ HA (wf_ones ar ac)) as WA.
  pose proof (wf_kron B _ HB (wf_ones br bc)) as WB.
  assert (shape (np_kron A (ones_array ar ac)) =
          shape (np_kron B (ones_array br bc))) as Hsh.
  { unfold shape. cbn [np_kron nrows ncols ones_array]. now rewrite Hr, Hc. }
  pose proof (matrix_addition_run A B ar ac br bc HmA HnA HmB HnB
                                  Ear Eac Ebr Ebc) as Hrun.
  rewrite (np_add_same_shape _ _ Hsh) in Hrun. cbn [bind] in Hrun.
  eexists; exists ar, ac, br, bc. split; [exact Hrun|].
  cbn [MatrixAddition.lcm_row MatrixAddition.lcm_col MatrixAddition.Res_add
       MatrixAddition.alpha_r MatrixAddition.alpha_c MatrixAddition.beta_r
       MatrixAddition.beta_c].
  split; [auto|].
  split; [reflexivity|]. split; [exact Lar|]. split; [exact Lac|].
  intros i j Hi Hj.
  destruct (split_index i ar (nrows A) Hi) as [_ [Hi1 _]].
  destruct (split_index j ac (ncols A) Hj) as [_ [Hj1 _]].
  destruct (split_index i br (nrows B) ltac:(lia)) as [_ [Hi2 _]].
  destruct (split_index j bc (ncols B) ltac:(lia)) as [_ [Hj2 _]].
  repeat split; try assumption.
  rewrite entry_add_same by assumption.
  rewrite !entry_kron_ones_div by (assumption || lia). reflexivity.
Qed.

End DrawnOperands.

Section PageRuns.

Context {rng : Type}.
Variable randint : Z -> Z -> nat -> nat -> rng -> ndarray * rng.

(** Freshly drawn operands are never stale, so one run draws at most once. *)
Lemma generate_product_operands_fresh (m n p q : nat) (s : Session.state)
      (g : rng) :
  product_operands_stale m n p q
    (fst (generate_product_operands rng randint m n p q s g)) = false.
Proof.
  unfold generate_product_operands.
  destruct (randint 1 5 m n g) as [A g1].
  destruct (randint 1 5 p q g1) as [B g2].
  unfold product_operands_stale. cbn [fst Session.A Session.dims].
  now rewrite dims_eqb_refl.
Qed.

Lemma generate_addition_operands_fresh (ma na mb nb : nat) (s : Session.state)
      (g : rng) :
  addition_operands_stale ma na mb nb
    (fst (generate_addition_operands rng randint ma na mb nb s g)) = false.
Proof.
  unfold generate_addition_operands.
  destruct (randint 1 10 ma na g) as [A g1].
  destruct (randint 1 10 mb nb g1) as [B g2].
  unfold addition_operands_stale. cbn [fst Session.A_add Session.dims_add].
  now rewrite dims_eqb_refl.
Qed.

Lemma mode_a_page_unfold (m n p q : nat) (button : bool) (s : Session.state)
      (g : rng) :
  mode_a_page rng randint m n p q button s g =
  let sg := if button || product_operands_stale m n p q s
            then generate_product_operands rng randint m n p q s g
            else (s, g) in
  match Session.A (fst sg), Session.B (fst sg) with
  | Some A, Some B =>
      match stp_product_stepwise A B with
      | Ok res => Shown (fst sg, snd sg, res)
      | Raise e => Failed e
      end
  | _, _ => AttributeError
  end.
Proof.
  unfold mode_a_page. destruct button; cbn [orb].
  - pose proof (generate_product_operands_fresh m n p q s g) as Hf.
    destruct (generate_product_operands rng randint m n p q s g) as [s1 g1].
    cbn [fst snd] in *. now rewrite Hf.
  - destruct (product_operands_stale m n p q s).
    + now destruct (generate_product_operands rng randint m n p q s g).
    + reflexivity.
Qed.

Lemma mode_b_matrix_page_unfold (ma na mb nb : nat) (button : bool)
      (s : Session.state) (g : rng) :
  mode_b_matrix_page rng randint ma na mb nb button s g =
  let sg := if button || addition_operands_stale ma na mb nb s
            then generate_addition_operands rng randint ma na mb nb s g
            else (s, g) in
  match Session.A_add (fst sg), Session.B_add (fst sg) with
  | Some A, Some B =>
      match matrix_addition (Z.of_nat ma) (Z.of_nat na)
                            (Z.of_nat mb) (Z.of_nat nb) A B with
      | Ok res => Shown (fst sg, snd sg, res)
      | Raise e => Failed e
      end
  | _, _ => AttributeError
  end.
Proof.
  unfold mode_b_matrix_page. destruct button; cbn [orb].
  - pose proof (generate_addition_operands_fresh ma na mb nb s g) as Hf.
    destruct (generate_addition_operands rng randint ma na mb nb s g)
      as [s1 g1].
    cbn [fst snd] in *. now rewrite Hf.
  - destruct (addition_operands_stale ma na mb nb s).
    + now destruct (generate_addition_operands rng randint ma na mb nb s g).
    + reflexivity.
Qed.

End PageRuns.

Section PageShown.

Context {rng : Type}.
Variable randint : Z -> Z -> nat -> nat -> rng -> ndarray * rng.
Hypothesis randint_spec : randint_ok randint.

(** The operands Mode A works on after its staleness check. *)
Lemma mode_a_operands (m n p q : nat) (button : bool) (s : Session.state)
      (g : rng) :
  product_state_ok s ->
  exists (s2 : Session.state) (g2 : rng) (A B : ndarray),
    (if button || product_operands_stale m n p q s
     then generate_product_operands rng randint m n p q s g
     else (s, g)) = (s2, g2) /\
    Session.A s2 = Some A /\ Session.B s2 = Some B /\
    Session.dims s2 = Some (m, n, p, q) /\
    drawn_from 1 5 m n A /\ drawn_from 1 5 p q B.
Proof.
  intros Hok.
  destruct (button || product_operands_stale m n p q s) eqn:C.
  - destruct (generate_product_operands_spec randint randint_spec m n p q s g)
      as [A [B [g' [E [_ [_ [DA DB]]]]]]].
    rewrite E. eexists; eexists; exists A, B.
    split; [reflexivity|]. cbn. auto.
  - apply orb_false_iff in C. destruct C as [_ St].
    unfold product_operands_stale in St.
    destruct (Session.A s) as [A|] eqn:EA; [|discriminate].
    destruct (Session.dims s) as [d|] eqn:ED; [|discriminate].
    apply negb_false_iff, dims_eqb_eq in St. subst d.
    destruct (Hok A _ EA ED) as [B [EB [DA DB]]].
    exists s, g, A, B. auto 10.
Qed.

Lemma mode_a_page_shows_aux (m n p q : nat) (button : bool)
      (s : Session.state) (g : rng) :
  product_state_ok s -> (1 <= n <= 5)%nat -> (1 <= p <= 5)%nat ->
  exists res : Product.steps,
    mode_a_page rng randint m n p q button s g =
    Shown (fst (if button || product_operands_stale m n p q s
                then generate_product_operands rng randint m n p q s g
                else (s, g)),
           snd (if button || product_operands_stale m n p q s
                then generate_product_operands rng randint m n p q s g
                else (s, g)),
           res).
Proof.
  intros Hok Hn Hp. rewrite mode_a_page_unfold.
  destruct (mode_a_operands m n p q button s g Hok)
    as [s2 [g2 [A [B [E [EA [EB [ED [DA DB]]]]]]]]].
  rewrite E. cbn [fst snd]. rewrite EA, EB.
  destruct (product_of_drawn m n p q A B DA DB Hn Hp) as [res [Hres _]].
  rewrite Hres. now exists res.
Qed.

End PageShown.

(** X18. Mode A never fails. From any session state the mode itself can have
    left (the fresh one included) and for dimension inputs within 1..5, a
    run reads no missing attribute and the product raises nothing; the
    operands in the session state afterwards have exactly the requested
    shapes and the recorded dimensions are the requested ones; and with
    entries drawn from 1..4 no entry of [Result] wraps. *)
Theorem mode_a_page_shows {rng : Type}
        (randint : Z -> Z -> nat -> nat -> rng -> ndarray * rng)
        (m n p q : nat) (button : bool) (s : Session.state) (g : rng) :
  randint_ok randint -> product_state_ok s ->
  (1 <= m <= 5)%nat -> (1 <= n <= 5)%nat ->
  (1 <= p <= 5)%nat -> (1 <= q <= 5)%nat ->
  exists (s' : Session.state) (g' : rng) (res : Product.steps)
         (A B : ndarray),
    mode_a_page rng randint m n p q button s g = Shown (s', g', res) /\
    Session.A s' = Some A /\ Session.B s' = Some B /\
    Session.dims s' = Some (m, n, p, q) /\
    shape A = (m, n) /\ shape B = (p, q) /\
    product_state_ok s' /\
    stp_product_stepwise A B = Ok res /\
    (forall i j : nat,
        (i < nrows (Product.Result res))%nat ->
        (j < ncols (Product.Result res))%nat ->
        entry (Product.Result res) i j =
        standard_product_entry (Product.A_kron res) (Product.B_kron res) i j).
Proof.
  intros Hrand Hok Hm Hn Hp Hq.
  rewrite mode_a_page_unfold.
  destruct (mode_a_operands randint Hrand m n p q button s g Hok)
    as [s2 [g2 [A [B [E [EA [EB [ED [DA DB]]]]]]]]].
  rewrite E. cbn [fst snd]. rewrite EA, EB.
  destruct (product_of_drawn m n p q A B DA DB Hn Hp) as [res [Hres Hex]].
  rewrite Hres. exists s2, g2, res, A, B.
  repeat split; try assumption; try apply DA; try apply DB.
  intros A' d HA' Hd. rewrite ED in Hd. injection Hd as <-.
  rewrite EA in HA'. injection HA' as <-. exists B. auto.
Qed.

Lemma mode_a_page_shows_witness :
  exists (s' : Session.state) (g' : unit) (res : Product.steps)
         (A B : ndarray),
    mode_a_page unit lowest_randint 2 2 3 2 false Session.empty tt
    = Shown (s', g', res) /\
    Session.A s' = Some A /\ Session.B s' = Some B /\
    Session.dims s' = Some (2, 2, 3, 2)%nat /\
    shape A = (2, 2)%nat /\ shape B = (3, 2)%nat /\
    stp_product_stepwise A B = Ok res.
Proof.
  destruct (mode_a_page_shows lowest_randint 2 2 3 2 false Session.empty tt
                              lowest_randint_ok empty_product_state_ok)
    as [s' [g' [res [A [B H]]]]]; try lia.
  exists s', g', res, A, B. tauto.
Defined.

(** X19. Mode A caches its operands: a run without a button press whose
    dimension inputs are the recorded ones draws nothing and leaves the
    session state and the generator as they were; a button press, missing
    operands or changed dimensions make it draw both operands anew, [A]
    first, exactly once. The attributes of the other modes are never
    touched. *)
Theorem mode_a_page_caching {rng : Type}
        (randint : Z -> Z -> nat -> nat -> rng -> ndarray * rng)
        (m n p q : nat) (button : bool) (s : Session.state) (g : rng) :
  randint_ok randint -> product_state_ok s ->
  (1 <= m <= 5)%nat -> (1 <= n <= 5)%nat ->
  (1 <= p <= 5)%nat -> (1 <= q <= 5)%nat ->
  exists (s' : Session.state) (g' : rng) (res : Product.steps),
    mode_a_page rng randint m n p q button s g = Shown (s', g', res) /\
    (button = false -> product_operands_stale m n p q s = false ->
     s' = s /\ g' = g) /\
    (button = true \/ product_operands_stale m n p q s = true ->
     Session.A s' = Some (fst (randint 1 5 m n g)) /\
     Session.B s' = Some (fst (randint 1 5 p q (snd (randint 1 5 m n g)))) /\
     Session.dims s' = Some (m, n, p, q) /\
     g' = snd (randint 1 5 p q (snd (randint 1 5 m n g)))) /\
    Session.A_add s' = Session.A_add s /\ Session.B_add s' = Session.B_add s /\
    Session.dims_add s' = Session.dims_add s /\
    Session.v_face s' = Session.v_face s /\
    Session.v_finger s' = Session.v_finger s.
Proof.
  intros Hrand Hok Hm Hn Hp Hq.
  destruct (mode_a_page_shows_aux randint Hrand m n p q button s g Hok Hn Hp)
    as [res E].
  rewrite mode_a_page_unfold in *.
  destruct (button || product_operands_stale m n p q s) eqn:C.
  - unfold generate_product_operands in *.
    destruct (randint 1 5 m n g) as [A g1]. cbn [fst snd] in *.
    destruct (randint 1 5 p q g1) as [B g2].
    cbn [fst snd Session.A Session.B] in *.
    destruct (stp_product_stepwise A B) as [r|e]; [|discriminate].
    eexists; eexists; eexists. split; [reflexivity|].
    cbn [Session.A Session.B Session.dims Session.A_add Session.B_add
         Session.dims_add Session.v_face Session.v_finger].
    apply orb_true_iff in C.
    split; [intros Hb Hs; destruct C; congruence|].
    split; [intros _|]; auto 10.
  - apply orb_false_iff in C. destruct C as [Cb Cs].
    cbn [fst snd] in *.
    destruct (Session.A s) as [A|]; [|discriminate].
    destruct (Session.B s) as [B|]; [|discriminate].
    destruct (stp_product_stepwise A B) as [r|e]; [|discriminate].
    exists s, g, r. split; [reflexivity|].
    split; [auto|]. split; [|auto 10].
    intros [Hb|Hs]; congruence.
Qed.

Lemma mode_a_page_caching_witness :
  exists (s' : Session.state) (g' : unit) (res : Product.steps),
    mode_a_page unit lowest_randint 2 2 3 2 true Session.empty tt
    = Shown (s', g', res) /\
    Session.A s' = Some (fst (lowest_randint 1 5 2 2 tt)) /\
    Session.dims s' = Some (2, 2, 3, 2)%nat.
Proof.
  destruct (mode_a_page_caching lowest_randint 2 2 3 2 true Session.empty tt
                                lowest_randint_ok empty_product_state_ok)
    as [s' [g' [res [H1 [_ [H3 _]]]]]]; try lia.
  exists s', g', res. split; [exact H1|].
  destruct H3 as [HA [_ [HD _]]]; [now left|]. auto.
Defined.

Section AdditionPages.

Context {rng : Type}.
Variable randint : Z -> Z -> nat -> nat -> rng -> ndarray * rng.
Hypothesis randint_spec : randint_ok randint.

(** The operands the matrix-addition mode works on after its staleness
    check. *)
Lemma mode_b_matrix_operands (ma na mb nb : nat) (button : bool)
      (s : Session.state) (g : rng) :
  addition_state_ok s ->
  exists (s2 : Session.state) (g2 : rng) (A B : ndarray),
    (if button || addition_operands_stale ma na mb nb s
     then generate_addition_operands rng randint ma na mb nb s g
     else (s, g)) = (s2, g2) /\
    Session.A_add s2 = Some A /\ Session.B_add s2 = Some B /\
    Session.dims_add s2 = Some (ma, na, mb, nb) /\
    drawn_from 1 10 ma na A /\ drawn_from 1 10 mb nb B.
Proof.
  intros Hok.
  destruct (button || addition_operands_stale ma na mb nb s) eqn:C.
  - destruct (generate_addition_operands_spec randint randint_spec
                                              ma na mb nb s g)
      as [A [B [g' [E [DA DB]]]]].
    rewrite E. eexists; eexists; exists A, B.
    split; [reflexivity|]. cbn. auto.
  - apply orb_false_iff in C. destruct C as [_ St].
    unfold addition_operands_stale in St.
    destruct (Session.A_add s) as [A|] eqn:EA; [|discriminate].
    destruct (Session.dims_add s) as [d|] eqn:ED; [|discriminate].
    apply negb_false_iff, dims_eqb_eq in St. subst d.
    destruct (Hok A _ EA ED) as [B [EB [DA DB]]].
    exists s, g, A, B. auto 10.
Qed.

(** The vectors the fusion mode works on after its staleness check. *)
Lemma mode_b_fusion_operands (dim_face dim_finger : nat) (button : bool)
      (s : Session.state) (g : rng) :
  fusion_state_ok s -> (2 <= dim_finger <= 20)%nat ->
  exists (s2 : Session.state) (g2 : rng) (F G : ndarray),
    mode_b_fusion_page rng randint dim_face dim_finger button s g =
    match stp_addition_stepwise F G with
    | Ok res => Shown (s2, g2, res)
    | Raise e => Failed e
    end /\
    Session.v_face s2 = Some F /\ Session.v_finger s2 = Some G /\
    drawn_from 10 50 dim_face 1 F /\ drawn_from 1 10 (nrows G) 1 G /\
    (2 <= nrows G <= 20)%nat /\
    (button = false -> features_stale dim_face s = false ->
     s2 = s /\ g2 = g).
Proof.
  intros Hok Hfinger.
  assert (forall s0 g0,
             exists (s2 : Session.state) (g2 : rng) (F G : ndarray),
               generate_features rng randint dim_face dim_finger s0 g0
               = (s2, g2) /\
               features_stale dim_face s2 = false /\
               Session.v_face s2 = Some F /\ Session.v_finger s2 = Some G /\
               drawn_from 10 50 dim_face 1 F /\
               drawn_from 1 10 (nrows G) 1 G /\ (2 <= nrows G <= 20)%nat)
    as Gen.
  { intros s0 g0.
    destruct (generate_features_spec randint randint_spec
                                     dim_face dim_finger s0 g0)
      as [F [G [g' [E [DF DG]]]]].
    destruct (drawn_from_shape _ _ _ _ _ DF) as [RF _].
    destruct (drawn_from_shape _ _ _ _ _ DG) as [RG _].
    rewrite E. eexists; eexists; exists F, G.
    split; [reflexivity|].
    unfold features_stale. cbn [Session.v_face Session.v_finger].
    rewrite RF, RG, Nat.eqb_refl. auto 10. }
  unfold mode_b_fusion_page. destruct button.
  - destruct (Gen s g) as [s2 [g2 [F [G [E [St [EF [EG [DF [DG HG]]]]]]]]]].
    rewrite E, St, EF, EG. exists s2, g2, F, G.
    repeat split; try assumption; try apply DF; try apply DG; try lia;
      discriminate.
  - destruct (features_stale dim_face s) eqn:St0.
    + destruct (Gen s g) as [s2 [g2 [F [G [E [St [EF [EG [DF [DG HG]]]]]]]]]].
      rewrite E, EF, EG. exists s2, g2, F, G.
      repeat split; try assumption; try apply DF; try apply DG; try lia;
        discriminate.
    + unfold features_stale in St0.
      destruct (Session.v_face s) as [F|] eqn:EF; [|discriminate].
      apply negb_false_iff, Nat.eqb_eq in St0.
      destruct (Hok F EF) as [G [EG [DF [DG HG]]]].
      rewrite EG, St0 in *. exists s, g, F, G.
      repeat split; try assumption; try apply DF; try apply DG; lia.
Qed.

End AdditionPages.

(** X20. The matrix-addition mode never fails. From any session state the mode
    can have left and dimension inputs of at least 1, a run reads no missing
    attribute and raises nothing; the stored operands have the requested
    shapes, which are the shapes the dimension inputs promise to the
    addition; and with entries drawn from 1..9 every entry of [Res_add] is
    the exact sum of the two resized operands, between 2 and 18. *)
Theorem mode_b_matrix_page_shows {rng : Type}
        (randint : Z -> Z -> nat -> nat -> rng -> ndarray * rng)
        (ma na mb nb : nat) (button : bool) (s : Session.state) (g : rng) :
  randint_ok randint -> addition_state_ok s ->
  (1 <= ma)%nat -> (1 <= na)%nat -> (1 <= mb)%nat -> (1 <= nb)%nat ->
  exists (s' : Session.state) (g' : rng) (res : MatrixAddition.steps)
         (A B : ndarray) (ar ac br bc : nat),
    mode_b_matrix_page rng randint ma na mb nb button s g
    = Shown (s', g', res) /\
    Session.A_add s' = Some A /\ Session.B_add s' = Some B /\
    Session.dims_add s' = Some (ma, na, mb, nb) /\
    shape A = (ma, na) /\ shape B = (mb, nb) /\
    addition_state_ok s' /\
    matrix_addition (Z.of_nat ma) (Z.of_nat na) (Z.of_nat mb) (Z.of_nat nb)
                    A B = Ok res /\
    shape (MatrixAddition.Res_add res) = ((ma * ar)%nat, (na * ac)%nat) /\
    Z.of_nat (ma * ar) = Z.lcm (Z.of_nat ma) (Z.of_nat mb) /\
    Z.of_nat (na * ac) = Z.lcm (Z.of_nat na) (Z.of_nat nb) /\
    (forall i j : nat,
        (i < ma * ar)%nat -> (j < na * ac)%nat ->
        entry (MatrixAddition.Res_add res) i j =
        entry A (i / ar) (j / ac) + entry B (i / br) (j / bc) /\
        2 <= entry (MatrixAddition.Res_add res) i j <= 18) /\
    MatrixAddition.alpha_r res = Z.of_nat ar /\
    MatrixAddition.alpha_c res = Z.of_nat ac /\
    MatrixAddition.beta_r res = Z.of_nat br /\
    MatrixAddition.beta_c res = Z.of_nat bc.
Proof.
  intros Hrand Hok HmA HnA HmB HnB.
  rewrite mode_b_matrix_page_unfold.
  destruct (mode_b_matrix_operands randint Hrand ma na mb nb button s g Hok)
    as [s2 [g2 [A [B [E [EA [EB [ED [DA DB]]]]]]]]].
  rewrite E. cbn [fst snd]. rewrite EA, EB.
  destruct (drawn_from_shape _ _ _ _ _ DA) as [RA CA].
  destruct (drawn_from_shape _ _ _ _ _ DB) as [RB CB].
  pose proof DA as [SA [WA EnA]]. pose proof DB as [SB [WB EnB]].
  destruct (addition_of_matrices A B WA WB ltac:(lia) ltac:(lia)
                                 ltac:(lia) ltac:(lia))
    as [res [ar [ac [br [bc [Hres [[Far [Fac [Fbr Fbc]]]
                                         [Hsh [Lr [Lc Hent]]]]]]]]]].
  rewrite RA, CA, RB, CB in *. rewrite Hres.
  assert (MatrixAddition.lcm_row res = Z.lcm (Z.of_nat ma) (Z.of_nat mb) /\
          MatrixAddition.lcm_col res = Z.lcm (Z.of_nat na) (Z.of_nat nb))
    as [Er Ec].
  { unfold matrix_addition in Hres.
    rewrite !get_lcm_of_nat in Hres by assumption. cbn [bind] in Hres.
    rewrite !floordiv_of_nat in Hres by assumption. cbn [bind] in Hres.
    destruct (np_ones _ _) as [JA|]; [|discriminate]. cbn [bind] in Hres.
    destruct (np_ones _ _) as [JB|]; [|discriminate]. cbn [bind] in Hres.
    destruct (np_add _ _) as [R|]; [|discriminate]. cbn [bind] in Hres.
    injection Hres as <-. split; reflexivity. }
  exists s2, g2, res, A, B, ar, ac, br, bc.
  repeat split; try assumption; try congruence.
  - intros A' d HA' Hd. rewrite ED in Hd. injection Hd as <-.
    rewrite EA in HA'. injection HA' as <-. exists B. auto.
  - destruct (Hent i j) as [_ [_ [_ [_ He]]]]; try assumption.
    rewrite He. apply add64_exact, in_int64_iff.
    destruct (Hent i j) as [H1 [H2 [H3 [H4 _]]]]; try assumption.
    pose proof (EnA _ _ H1 H2). pose proof (EnB _ _ H3 H4). lia.
  - destruct (Hent i j) as [H1 [H2 [H3 [H4 He]]]]; try assumption.
    rewrite He, add64_exact.
    + pose proof (EnA _ _ H1 H2). pose proof (EnB _ _ H3 H4). lia.
    + apply in_int64_iff.
      pose proof (EnA _ _ H1 H2). pose proof (EnB _ _ H3 H4). lia.
  - destruct (Hent i j) as [H1 [H2 [H3 [H4 He]]]]; try assumption.
    rewrite He, add64_exact.
    + pose proof (EnA _ _ H1 H2). pose proof (EnB _ _ H3 H4). lia.
    + apply in_int64_iff.
      pose proof (EnA _ _ H1 H2). pose proof (EnB _ _ H3 H4). lia.
Qed.

Lemma mode_b_matrix_page_shows_witness :
  exists (s' : Session.state) (g' : unit) (res : MatrixAddition.steps)
         (A B : ndarray),
    mode_b_matrix_page unit lowest_randint 2 2 3 2 false Session.empty tt
    = Shown (s', g', res) /\
    Session.A_add s' = Some A /\ Session.B_add s' = Some B /\
    shape A = (2, 2)%nat /\ shape B = (3, 2)%nat.
Proof.
  destruct (mode_b_matrix_page_shows lowest_randint 2 2 3 2 false
                                     Session.empty tt lowest_randint_ok
                                     empty_addition_state_ok)
    as [s' [g' [res [A [B [ar [ac [br [bc H]]]]]]]]]; try lia.
  exists s', g', res, A, B. tauto.
Defined.

(** X21. The fusion mode never fails. From any session state the mode can have
    left and slider positions within 2..20, a run reads no missing attribute
    and the addition raises nothing; the stored face vector has the
    requested length; and with faces drawn from 10..49 and fingerprints from
    1..9 every entry of the fused vector is the exact sum of one face entry
    and one fingerprint entry, between 11 and 58. *)
Theorem mode_b_fusion_page_shows {rng : Type}
        (randint : Z -> Z -> nat -> nat -> rng -> ndarray * rng)
        (dim_face dim_finger : nat) (button : bool) (s : Session.state)
        (g : rng) :
  randint_ok randint -> fusion_state_ok s ->
  (2 <= dim_face <= 20)%nat -> (2 <= dim_finger <= 20)%nat ->
  exists (s' : Session.state) (g' : rng) (res : Addition.steps)
         (F G : ndarray) (a b : nat),
    mode_b_fusion_page rng randint dim_face dim_finger button s g
    = Shown (s', g', res) /\
    Session.v_face s' = Some F /\ Session.v_finger s' = Some G /\
    shape F = (dim_face, 1%nat) /\ ncols G = 1%nat /\
    (2 <= nrows G <= 20)%nat /\
    fusion_state_ok s' /\
    stp_addition_stepwise F G = Ok res /\
    Addition.LCM res = Z.lcm (Z.of_nat dim_face) (Z.of_nat (nrows G)) /\
    shape (Addition.Result res) = ((dim_face * a)%nat, 1%nat) /\
    Z.of_nat (dim_face * a) = Addition.LCM res /\
    (forall t : nat,
        (t < dim_face * a)%nat ->
        entry (Addition.Result res) t 0 =
        entry F (t / a) 0 + entry G (t / b) 0 /\
        11 <= entry (Addition.Result res) t 0 <= 58) /\
    Addition.alpha res = Z.of_nat a /\ Addition.beta res = Z.of_nat b.
Proof.
  intros Hrand Hok Hface Hfinger.
  destruct (mode_b_fusion_operands randint Hrand dim_face dim_finger button
                                   s g Hok Hfinger)
    as [s2 [g2 [F [G [E [EF [EG [DF [DG [HG _]]]]]]]]]].
  destruct (drawn_from_shape _ _ _ _ _ DF) as [RF CF].
  destruct (drawn_from_shape _ _ _ _ _ DG) as [_ CG].
  pose proof DF as [SF [WF EnF]]. pose proof DG as [SG [WG EnG]].
  destruct (addition_of_columns F G WF WG CF CG ltac:(lia) ltac:(lia))
    as [res [a [b [Hres [[Fa Fb] [HL [La [Hab [Hsh Hent]]]]]]]]].
  rewrite RF in *. rewrite Hres in E.
  assert (forall t : nat, (t < dim_face * a)%nat ->
            10 <= entry F (t / a) 0 < 50 /\ 1 <= entry G (t / b) 0 < 10)
    as Hrange.
  { intros t Ht.
    destruct (split_index t a dim_face Ht) as [_ [H1 _]].
    destruct (split_index t b (nrows G) ltac:(lia)) as [_ [H2 _]].
    split; [apply EnF | apply EnG]; lia. }
  exists s2, g2, res, F, G, a, b.
  repeat split; try assumption; try lia.
  - intros F' HF'. rewrite EF in HF'. injection HF' as <-.
    exists G. rewrite RF. auto.
  - rewrite Hent by assumption. apply add64_exact, in_int64_iff.
    destruct (Hrange t) as [H1 H2]; [assumption | lia].
  - rewrite Hent, add64_exact by assumption || (apply in_int64_iff;
      destruct (Hrange t) as [H1 H2]; [assumption | lia]).
    destruct (Hrange t) as [H1 H2]; [assumption | lia].
  - rewrite Hent, add64_exact by assumption || (apply in_int64_iff;
      destruct (Hrange t) as [H1 H2]; [assumption | lia]).
    destruct (Hrange t) as [H1 H2]; [assumption | lia].
Qed.

Lemma mode_b_fusion_page_shows_witness :
  exists (s' : Session.state) (g' : unit) (res : Addition.steps)
         (F G : ndarray),
    mode_b_fusion_page unit lowest_randint 4 3 false Session.empty tt
    = Shown (s', g', res) /\
    Session.v_face s' = Some F /\ Session.v_finger s' = Some G /\
    shape F = (4%nat, 1%nat) /\
    stp_addition_stepwise F G = Ok res.
Proof.
  destruct (mode_b_fusion_page_shows lowest_randint 4 3 false Session.empty tt
                                     lowest_randint_ok empty_fusion_state_ok)
    as [s' [g' [res [F [G [a [b H]]]]]]]; try lia.
  exists s', g', res, F, G. tauto.
Defined.

(** X22. The fusion mode looks at the face vector only: without a button press
    and with a stored face vector of the requested length, a run draws
    nothing and fuses the stored vectors whatever the fingerprint slider
    says, so the fingerprint vector keeps the length it was drawn with. *)
Theorem mode_b_fusion_page_ignores_finger_slider {rng : Type}
        (randint : Z -> Z -> nat -> nat -> rng -> ndarray * rng)
        (dim_face dim_finger : nat) (s : Session.state) (g : rng)
        (F G : ndarray) :
  Session.v_face s = Some F -> Session.v_finger s = Some G ->
  nrows F = dim_face ->
  mode_b_fusion_page rng randint dim_face dim_finger false s g =
  match stp_addition_stepwise F G with
  | Ok res => Shown (s, g, res)
  | Raise e => Failed e
  end.
Proof.
  intros EF EG HF. unfold mode_b_fusion_page, features_stale.
  rewrite EF, HF, Nat.eqb_refl. cbn [negb]. now rewrite EF, EG.
Qed.

Lemma mode_b_fusion_page_ignores_finger_slider_witness :
  mode_b_fusion_page unit lowest_randint 2 7 false
    (Session.mk_state None None None None None None
                      (Some (mk_ndarray 2 1 [[10]; [20]]))
                      (Some (mk_ndarray 3 1 [[1]; [2]; [3]]))) tt =
  match stp_addition_stepwise (mk_ndarray 2 1 [[10]; [20]])
                              (mk_ndarray 3 1 [[1]; [2]; [3]]) with
  | Ok res =>
      Shown (Session.mk_state None None None None None None
                              (Some (mk_ndarray 2 1 [[10]; [20]]))
                              (Some (mk_ndarray 3 1 [[1]; [2]; [3]])), tt, res)
  | Raise e => Failed e
  end.
Proof.
  apply (mode_b_fusion_page_ignores_finger_slider lowest_randint 2 7);
    reflexivity.
Defined.
